(** * The mpv control subsystem of invidtui

    A shallow embedding of [lib/mpv_player.go] (the Connector facade, the
    process launcher, start-up and the playback monitor), of the feed
    pages of [lib/feed.go], and of the lifecycle watcher, the keyboard
    handling and the banner of [ui/ui.go], together with the properties
    the specification states about them and further properties read off
    the code.

    The external collaborators are parameters: the [mpvipc] connection,
    the start of the mpv process, the two [strconv] conversions and the
    socket path live in the record [Env], the HTTP side of the client in
    the record [Http]; the code of this repository is then written over
    arbitrary ones.  Go goroutines are modelled by interleaving: every
    function body (and every iteration of a background loop) is one
    atomic step on a [World], so [monitorMutex], which only brackets
    single map accesses, does not appear.  Every entry into one of the
    three primitives of the Connector is recorded in a ghost trace, with
    a mark telling whether the request went on to the transport. *)

From stdpp Require Import base option list gmap strings.
From Stdlib Require Import ZArith Lia Ascii DecimalString.

Local Open Scope Z_scope.
Local Open Scope string_scope.

(** ** Go values and errors *)

(** A Go [interface{}] as the calls of this program use it.  [F] is the
    type of float64 numbers, which the JSON decoder of the transport
    produces for every number. *)
Inductive Value (F : Type) : Type :=
  | VNil
  | VBool (b : bool)
  | VInt (z : Z)
  | VFloat (f : F)
  | VString (s : string).
Arguments VNil {F}.
Arguments VBool {F} b.
Arguments VInt {F} z.
Arguments VFloat {F} f.
Arguments VString {F} s.

(** A Go [error]: [None] is [nil], [Some msg] an error built by
    [fmt.Errorf]. *)
Definition error : Type := option string.

Definition ConnectionClosedError : string := "Connection closed".
Definition LoadError (what : string) : string := "Unable to load " ++ what.
Definition LaunchError : string := "Error: Could not start mpv".
Definition ConnectTimeoutError : string := "Error: Could not connect to socket".

Definition is_err (e : error) : bool :=
  match e with Some _ => true | None => false end.

(** How a call ends: it returns, it panics, or it is parked on a channel
    operation that cannot proceed. *)
Inductive Outcome (A : Type) : Type :=
  | Ret (a : A)
  | Panic (msg : string)
  | Blocked.
Arguments Ret {A} a.
Arguments Panic {A} msg.
Arguments Blocked {A}.

(** ** Channels *)

(** A buffered Go channel: pending elements oldest first, the capacity
    given to [make], and whether [close] has been called. *)
Record Chan (A : Type) : Type := mkChan {
  ch_buf : list A;
  ch_cap : nat;
  ch_closed : bool
}.
Arguments mkChan {A} _ _ _.
Arguments ch_buf {A} _.
Arguments ch_cap {A} _.
Arguments ch_closed {A} _.

Definition make_chan {A} (n : nat) : Chan A := mkChan [] n false.

(** [ch <- x]: a plain send. *)
Definition chan_send {A} (x : A) (ch : Chan A) : Outcome (Chan A) :=
  if ch_closed ch then Panic "send on closed channel"
  else if (length (ch_buf ch) <? ch_cap ch)%nat
       then Ret (mkChan (ch_buf ch ++ [x]) (ch_cap ch) false)
       else Blocked.

(** [x, ok := <-ch] where the receive is ready: an element of the buffer
    with [ok = true], or the zero value with [ok = false] once the channel
    is closed and drained.  [None] when the receive is not ready. *)
Definition chan_poll {A} (zero : A) (ch : Chan A) : option (A * bool * Chan A) :=
  match ch_buf ch with
  | x :: rest => Some (x, true, mkChan rest (ch_cap ch) (ch_closed ch))
  | [] => if ch_closed ch then Some (zero, false, ch) else None
  end.

Definition chan_close {A} (ch : Chan A) : Outcome (Chan A) :=
  if ch_closed ch then Panic "close of closed channel"
  else Ret (mkChan (ch_buf ch) (ch_cap ch) true).

(** The unbuffered channel [MPVErrors]: a send goes through only while a
    receiver is parked on it.  [err_receivers] counts the parked receivers
    and [err_delivered] lists what they were handed, oldest first. *)
Record ErrChan : Type := mkErrChan {
  err_receivers : nat;
  err_delivered : list string;
  err_closed : bool
}.

Definition make_errchan : ErrChan := mkErrChan 0 [] false.

(** ** The environment *)

(** What the program takes from outside this repository. *)
Record Env : Type := mkEnv {
  float64 : Type;
  (** Go's conversion [int(x)] of a float64 *)
  float_to_int : float64 -> Z;
  (** [*mpvipc.Connection] *)
  Conn : Type;
  mpvipc_NewConnection : string -> Conn;
  conn_Open : Conn -> error * Conn;
  conn_IsClosed : Conn -> bool;
  conn_Close : Conn -> Conn;
  conn_Call : list (Value float64) -> Conn -> Value float64 * error * Conn;
  conn_Get : string -> Conn -> Value float64 * error * Conn;
  conn_Set : string -> Value float64 -> Conn -> error * Conn;
  (** [exec.Command(argv...).Start()] *)
  exec_Start : list string -> error;
  strconv_Itoa : Z -> string;
  strconv_Atoi : string -> Z * error;
  (** the package variable [sockPath] *)
  sockPath : string
}.

(** Go's [int] is 64 bits wide. *)
Definition wrap_int (z : Z) : Z := (z + 2 ^ 63) mod 2 ^ 64 - 2 ^ 63.

(** A request as the Connector hands it to one of its three primitives. *)
Inductive Request (F : Type) : Type :=
  | RCall (args : list (Value F))
  | RGet (prop : string)
  | RSet (prop : string) (v : Value F).
Arguments RCall {F} args.
Arguments RGet {F} prop.
Arguments RSet {F} prop v.

(** Ghost trace of what a run did, in program order.  [EPrim r fwd] is one
    entry into [Call], [Get] or [Set]; [fwd] tells whether the request
    went on to the transport. *)
Inductive Event (F : Type) : Type :=
  | EPrim (r : Request F) (forwarded : bool)
  | EClearMonitor
  | ERemove (path : string)
  | EStopListening.
Arguments EPrim {F} r forwarded.
Arguments EClearMonitor {F}.
Arguments ERemove {F} path.
Arguments EStopListening {F}.

Section Connector.

Context {T : Env}.

Local Abbreviation value := (Value (float64 T)).
Local Abbreviation request := (Request (float64 T)).
Local Abbreviation event := (Event (float64 T)).

(** The package variables of [lib/mpv_player.go] and the connection of the
    one Connector, plus the ghost trace. *)
Record World : Type := mkWorld {
  conn : Conn T;
  loop : string;
  monitorMap : gmap Z string;
  mpvInfoChan : Chan Z;
  mpvErrorChan : Chan Z;
  MPVErrors : ErrChan;
  trace : list event
}.

Definition set_conn (c : Conn T) (w : World) : World :=
  mkWorld c (loop w) (monitorMap w) (mpvInfoChan w) (mpvErrorChan w) (MPVErrors w) (trace w).
Definition set_loop (l : string) (w : World) : World :=
  mkWorld (conn w) l (monitorMap w) (mpvInfoChan w) (mpvErrorChan w) (MPVErrors w) (trace w).
Definition set_monitorMap (m : gmap Z string) (w : World) : World :=
  mkWorld (conn w) (loop w) m (mpvInfoChan w) (mpvErrorChan w) (MPVErrors w) (trace w).
Definition set_mpvInfoChan (ch : Chan Z) (w : World) : World :=
  mkWorld (conn w) (loop w) (monitorMap w) ch (mpvErrorChan w) (MPVErrors w) (trace w).
Definition set_mpvErrorChan (ch : Chan Z) (w : World) : World :=
  mkWorld (conn w) (loop w) (monitorMap w) (mpvInfoChan w) ch (MPVErrors w) (trace w).
Definition set_MPVErrors (ch : ErrChan) (w : World) : World :=
  mkWorld (conn w) (loop w) (monitorMap w) (mpvInfoChan w) (mpvErrorChan w) ch (trace w).
Definition log (e : event) (w : World) : World :=
  mkWorld (conn w) (loop w) (monitorMap w) (mpvInfoChan w) (mpvErrorChan w) (MPVErrors w)
          (trace w ++ [e]).

(** The state right after [MPVStart] has made its channels and map. *)
Definition init_world (c : Conn T) : World :=
  mkWorld c "" ∅ (make_chan 100) (make_chan 100) make_errchan [].

(** ** The monad of the program: state plus outcome *)

Definition M (A : Type) : Type := World -> Outcome A * World.

Definition ret {A} (a : A) : M A := fun w => (Ret a, w).

Definition bind {A B} (m : M A) (k : A -> M B) : M B :=
  fun w =>
    match m w with
    | (Ret a, w') => k a w'
    | (Panic msg, w') => (Panic msg, w')
    | (Blocked, w') => (Blocked, w')
    end.

Definition panic {A} (msg : string) : M A := fun w => (Panic msg, w).
Definition modify (f : World -> World) : M unit := fun w => (Ret tt, f w).
Definition gets {A} (f : World -> A) : M A := fun w => (Ret (f w), w).

Notation "'do' x <- m ; k" := (bind m (fun x => k))
  (at level 10, x name, m at level 100, k at level 200, only parsing).
Notation "'do' ' p <- m ; k" := (bind m (fun x => match x with p => k end))
  (at level 10, p pattern, m at level 100, k at level 200, only parsing).
Notation "m ;; k" := (bind m (fun _ => k))
  (at level 100, k at level 200, right associativity, only parsing).

(** Type assertions [v.(bool)], [v.(float64)], [v.(string)]: they panic
    when the dynamic type differs. *)
Definition as_bool (v : value) : M bool :=
  match v with VBool b => ret b | _ => panic "interface conversion: not bool" end.
Definition as_float64 (v : value) : M (float64 T) :=
  match v with VFloat f => ret f | _ => panic "interface conversion: not float64" end.
Definition as_string (v : value) : M string :=
  match v with VString s => ret s | _ => panic "interface conversion: not string" end.

(** [v == "lit"] on an interface value: true only for that very string. *)
Definition eq_string (v : value) (lit : string) : bool :=
  match v with VString s => bool_decide (s = lit) | _ => false end.

Definition is_nil (v : value) : bool :=
  match v with VNil => true | _ => false end.

(** ** The Connector *)

Definition IsClosed : M bool := gets (fun w => conn_IsClosed T (conn w)).

(** The three primitives.  [Set] is a keyword here, so the method of that
    name is [Set_]. *)

Definition Call (args : list value) : M (value * error) :=
  do closed <- IsClosed;
  if closed then
    modify (log (EPrim (RCall args) false)) ;;
    ret (VNil, Some ConnectionClosedError)
  else
    fun w =>
      let '(v, err, c) := conn_Call T args (conn w) in
      (Ret (v, err), log (EPrim (RCall args) true) (set_conn c w)).

Definition Get (prop : string) : M (value * error) :=
  do closed <- IsClosed;
  if closed then
    modify (log (EPrim (RGet prop) false)) ;;
    ret (VNil, Some ConnectionClosedError)
  else
    fun w =>
      let '(v, err, c) := conn_Get T prop (conn w) in
      (Ret (v, err), log (EPrim (RGet prop) true) (set_conn c w)).

Definition Set_ (prop : string) (v : value) : M error :=
  do closed <- IsClosed;
  if closed then
    modify (log (EPrim (RSet prop v) false)) ;;
    ret (Some ConnectionClosedError)
  else
    fun w =>
      let '(err, c) := conn_Set T prop v (conn w) in
      (Ret err, log (EPrim (RSet prop v) true) (set_conn c w)).

(** The playlist monitor as the load path sees it. *)

Definition addToMonitor (name : string) : M unit :=
  do ch <- gets mpvInfoChan;
  match chan_poll 0 ch with
  | Some (id, _, ch') =>
      modify (set_mpvInfoChan ch') ;;
      do m <- gets monitorMap;
      modify (set_monitorMap (<[id := name]> m))
  | None => ret tt
  end.

Definition clearMonitor : M unit :=
  modify (fun w => log EClearMonitor (set_monitorMap ∅ w)).

Definition MPVStop (rm : bool) : M unit :=
  do closed <- IsClosed;
  if closed then ret tt
  else
    Call [VString "quit"] ;;
    if negb rm then ret tt
    else modify (log (ERemove (sockPath T))).

(** Load operations. *)

(** The local variable [options] of [LoadFile]. *)
Definition load_options (title : string) (duration : Z) (files : list string) : string :=
  let options := "title='" ++ title ++ "',length=" ++ strconv_Itoa T duration in
  match files with
  | [_; f1] => options ++ ",audio-file=" ++ f1
  | _ => options
  end.

Definition LoadFile (title : string) (duration : Z) (files : list string) : M error :=
  let options := load_options title duration files in
  match files with
  | [] => panic "index out of range"
  | f0 :: _ =>
      do '(_, err) <- Call [VString "loadfile"; VString f0; VString "append-play"; VString options];
      if is_err err then ret (Some (LoadError title))
      else addToMonitor title ;; ret None
  end.

Definition LoadPlaylist (plpath : string) (replace : bool) : M error :=
  do param <-
    (if replace then clearMonitor ;; ret "replace" else ret "append-play");
  do '(_, err) <- Call [VString "loadlist"; VString plpath; VString param];
  if is_err err then ret (Some (LoadError plpath))
  else addToMonitor "playlist entry" ;; ret None.

(** State queries. *)

Definition IsPaused : M bool :=
  do '(paused, err) <- Get "pause";
  if is_err err then ret false else as_bool paused.

Definition IsShuffle : M bool :=
  do '(shuffle, err) <- Get "shuffle";
  if is_err err then ret false else as_bool shuffle.

Definition IsEOF : M bool :=
  do '(eof, err) <- Get "eof-reached";
  if is_err err then ret false else as_bool eof.

Definition IsIdle : M bool :=
  do '(idle, err) <- Get "core-idle";
  if is_err err then ret false else as_bool idle.

Definition MediaType : M string :=
  do '(_, err) <- Get "height";
  if is_err err then ret "Audio" else ret "Video".

Definition LoopType (file : bool) : M string :=
  do '(lf, err) <- Call [VString "get_property_string"; VString "loop-file"];
  if is_err err then ret ""
  else
    do '(lp, err) <- Call [VString "get_property_string"; VString "loop-playlist"];
    if is_err err then ret ""
    else if eq_string lf "yes" || eq_string lf "inf" then ret "R-F"
    else if eq_string lp "yes" || eq_string lp "inf" then ret "R-P"
    else ret "".

Definition TimePosition : M Z :=
  do '(timepos, err) <- Get "playback-time";
  if is_err err then ret 0
  else do f <- as_float64 timepos; ret (float_to_int T f).

Definition Duration : M Z :=
  do '(duration, err) <- Get "duration";
  if is_err err then
    do '(duration, err) <- Get "options/length";
    if is_err err then ret 0
    else
      do s <- as_string duration;
      let '(time, err) := strconv_Atoi T s in
      if is_err err then ret 0 else ret time
  else do f <- as_float64 duration; ret (float_to_int T f).

Definition PlaylistData : M string :=
  do '(list, err) <- Call [VString "get_property_string"; VString "playlist"];
  if is_err err then ret "" else as_string list.

Definition PlaylistCount : M Z :=
  do '(count, err) <- Get "playlist-count";
  if is_err err then ret 0
  else do f <- as_float64 count; ret (float_to_int T f).

Definition PlaylistPos : M Z :=
  do '(pos, err) <- Get "playlist-playing-pos";
  if is_err err then ret 0
  else do f <- as_float64 pos; ret (float_to_int T f).

Definition PlaylistTitle (pos : Z) : M string :=
  do '(pltitle, _) <-
    Call [VString "get_property_string";
          VString ("playlist/" ++ strconv_Itoa T pos ++ "/title")];
  if is_nil pltitle then
    do '(plfile, _) <-
      Call [VString "get_property_string";
            VString ("playlist/" ++ strconv_Itoa T pos ++ "/filename")];
    if is_nil plfile then ret "-" else as_string plfile
  else as_string pltitle.

(** Mutators. *)

Definition Play : M unit := Set_ "pause" (VString "no") ;; ret tt.
Definition Stop : M unit := Call [VString "stop"] ;; ret tt.
Definition SeekForward : M unit := Call [VString "seek"; VInt 1] ;; ret tt.
Definition SeekBackward : M unit := Call [VString "seek"; VInt (-1)] ;; ret tt.
Definition Next : M unit := Call [VString "playlist-next"] ;; ret tt.
Definition Prev : M unit := Call [VString "playlist-prev"] ;; ret tt.

Definition SetPlaylistPos (pos : Z) : M unit :=
  Set_ "playlist-pos" (VInt pos) ;; ret tt.
Definition PlaylistDelete (entry : Z) : M unit :=
  Call [VString "playlist-remove"; VInt entry] ;; ret tt.
Definition PlaylistMove (a b : Z) : M unit :=
  Call [VString "playlist-move"; VInt a; VInt b] ;; ret tt.
Definition PlaylistClear : M unit :=
  Call [VString "playlist-clear"] ;; clearMonitor.

Definition PlaylistPlayLatest : M unit :=
  do count <- PlaylistCount;
  Set_ "playlist-pos" (VInt (wrap_int (count - 1))) ;;
  Play.

Definition CyclePaused : M unit :=
  do eof <- IsEOF;
  do both <- (if eof then IsPaused else ret false);
  (if both then Call [VString "seek"; VInt 0; VString "absolute-percent"] ;; ret tt
   else ret tt) ;;
  Call [VString "cycle"; VString "pause"] ;; ret tt.

Definition CycleShuffle : M unit :=
  Call [VString "cycle"; VString "shuffle"] ;; ret tt.

Definition CycleLoop : M unit :=
  do l <- gets loop;
  if bool_decide (l = "") then
    modify (set_loop "loop-file") ;;
    Set_ "loop-file" (VString "yes") ;;
    Set_ "loop-playlist" (VString "no") ;; ret tt
  else if bool_decide (l = "loop-file") then
    modify (set_loop "loop-playlist") ;;
    Set_ "loop-file" (VString "no") ;;
    Set_ "loop-playlist" (VString "yes") ;; ret tt
  else if bool_decide (l = "loop-playlist") then
    modify (set_loop "") ;;
    Set_ "loop-file" (VString "no") ;;
    Set_ "loop-playlist" (VString "no") ;; ret tt
  else ret tt.

(** ** The event listener and the monitor task *)

(** An event of the transport's event stream. *)
Record MpvEvent : Type := mkEvent {
  Name : string;
  ExtraData : gmap string value
}.

(** [m[key]] on a [map[string]interface{}]: nil when the key is absent. *)
Definition extra (ev : MpvEvent) (key : string) : value :=
  default VNil (ExtraData ev !! key).

Definition send_mpvInfoChan (id : Z) : M unit :=
  fun w =>
    match chan_send id (mpvInfoChan w) with
    | Ret ch => (Ret tt, set_mpvInfoChan ch w)
    | Panic msg => (Panic msg, w)
    | Blocked => (Blocked, w)
    end.

Definition send_mpvErrorChan (id : Z) : M unit :=
  fun w =>
    match chan_send id (mpvErrorChan w) with
    | Ret ch => (Ret tt, set_mpvErrorChan ch w)
    | Panic msg => (Panic msg, w)
    | Blocked => (Blocked, w)
    end.

(** [select { case MPVErrors <- title: default: }] *)
Definition offer_MPVErrors (title : string) : M unit :=
  fun w =>
    let ch := MPVErrors w in
    if err_closed ch then (Panic "send on closed channel", w)
    else
      match err_receivers ch with
      | S n => (Ret tt, set_MPVErrors (mkErrChan n (err_delivered ch ++ [title]) false) w)
      | O => (Ret tt, w)
      end.

Definition close_MPVErrors : M unit :=
  fun w =>
    let ch := MPVErrors w in
    if err_closed ch then (Panic "close of closed channel", w)
    else (Ret tt, set_MPVErrors (mkErrChan 0 (err_delivered ch) true) w).

Definition close_mpvInfoChan : M unit :=
  fun w =>
    match chan_close (mpvInfoChan w) with
    | Ret ch => (Ret tt, set_mpvInfoChan ch w)
    | Panic msg => (Panic msg, w)
    | Blocked => (Blocked, w)
    end.

Definition close_mpvErrorChan : M unit :=
  fun w =>
    match chan_close (mpvErrorChan w) with
    | Ret ch => (Ret tt, set_mpvErrorChan ch w)
    | Panic msg => (Panic msg, w)
    | Blocked => (Blocked, w)
    end.

(** The closure [shutdown] of [eventListener]. *)
Definition shutdown : M unit :=
  modify (fun w => set_conn (conn_Close T (conn w)) w) ;;
  close_MPVErrors ;;
  close_mpvInfoChan ;;
  close_mpvErrorChan ;;
  modify (log EStopListening).

(** What [eventListener] does before it enters its loop. *)
Definition eventListener_init : M unit :=
  Call [VString "observe_property"; VInt 1; VString "shutdown"] ;; ret tt.

(** One turn of the loop of [eventListener] on what the events channel
    yields: [None] when that channel is closed.  The result tells whether
    the loop goes on. *)
Definition eventListener_iter (got : option MpvEvent) : M bool :=
  match got with
  | None => shutdown ;; ret false
  | Some ev =>
      if bool_decide (Name ev = "start-file") then
        if bool_decide (0 < size (ExtraData ev))%nat then
          let val := extra ev "playlist_entry_id" in
          do f <- as_float64 val;
          send_mpvInfoChan (float_to_int T f) ;; ret true
        else ret true
      else if bool_decide (Name ev = "end-file") then
        if bool_decide (0 < size (ExtraData ev))%nat then
          let err := extra ev "file_error" in
          let val := extra ev "playlist_entry_id" in
          if negb (is_nil err) && negb (is_nil val) then
            do msg <- as_string err;
            if negb (bool_decide (msg = "")) then
              do f <- as_float64 val;
              send_mpvErrorChan (float_to_int T f) ;; ret true
            else ret true
          else ret true
        else ret true
      else if bool_decide (Name ev = "shutdown") then
        shutdown ;; ret false
      else ret true
  end.

(** One turn of the loop of [monitorStart]; the result tells whether the
    loop goes on.  The receive on [mpvErrorChan] is the only case of its
    [select], so the task is parked while that queue is empty and open. *)
Definition monitorStart_iter : M bool :=
  do ch <- gets mpvErrorChan;
  match chan_poll 0 ch with
  | None => fun w => (Blocked, w)
  | Some (id, ok, ch') =>
      modify (set_mpvErrorChan ch') ;;
      if negb ok then ret false
      else
        do m <- gets monitorMap;
        let title := default "" (m !! id) in
        modify (set_monitorMap (delete id m)) ;;
        offer_MPVErrors title ;;
        ret true
  end.

(** ** Every operation of the Connector under one name *)

Inductive Op : Type :=
  | OCall (args : list value)
  | OGet (prop : string)
  | OSet (prop : string) (v : value)
  | OMPVStop (rm : bool)
  | OLoadFile (title : string) (duration : Z) (files : list string)
  | OLoadPlaylist (plpath : string) (replace : bool)
  | OIsPaused
  | OIsShuffle
  | OIsEOF
  | OIsIdle
  | OMediaType
  | OLoopType (file : bool)
  | OTimePosition
  | ODuration
  | OPlaylistData
  | OPlaylistCount
  | OPlaylistPos
  | OPlaylistTitle (pos : Z)
  | OSetPlaylistPos (pos : Z)
  | OPlaylistDelete (entry : Z)
  | OPlaylistMove (a b : Z)
  | OPlaylistClear
  | OPlaylistPlayLatest
  | OCyclePaused
  | OCycleShuffle
  | OCycleLoop
  | OPlay
  | OStop
  | OSeekForward
  | OSeekBackward
  | ONext
  | OPrev.

(** What an operation hands back to its caller. *)
Inductive Result : Type :=
  | RNothing
  | RBool (b : bool)
  | RInt (z : Z)
  | RString (s : string)
  | RError (e : error)
  | RValue (v : value) (e : error).

Definition run_op (o : Op) : M Result :=
  match o with
  | OCall args => do '(v, e) <- Call args; ret (RValue v e)
  | OGet prop => do '(v, e) <- Get prop; ret (RValue v e)
  | OSet prop v => do e <- Set_ prop v; ret (RError e)
  | OMPVStop rm => MPVStop rm ;; ret RNothing
  | OLoadFile title duration files => do e <- LoadFile title duration files; ret (RError e)
  | OLoadPlaylist plpath replace => do e <- LoadPlaylist plpath replace; ret (RError e)
  | OIsPaused => do b <- IsPaused; ret (RBool b)
  | OIsShuffle => do b <- IsShuffle; ret (RBool b)
  | OIsEOF => do b <- IsEOF; ret (RBool b)
  | OIsIdle => do b <- IsIdle; ret (RBool b)
  | OMediaType => do s <- MediaType; ret (RString s)
  | OLoopType file => do s <- LoopType file; ret (RString s)
  | OTimePosition => do z <- TimePosition; ret (RInt z)
  | ODuration => do z <- Duration; ret (RInt z)
  | OPlaylistData => do s <- PlaylistData; ret (RString s)
  | OPlaylistCount => do z <- PlaylistCount; ret (RInt z)
  | OPlaylistPos => do z <- PlaylistPos; ret (RInt z)
  | OPlaylistTitle pos => do s <- PlaylistTitle pos; ret (RString s)
  | OSetPlaylistPos pos => SetPlaylistPos pos ;; ret RNothing
  | OPlaylistDelete entry => PlaylistDelete entry ;; ret RNothing
  | OPlaylistMove a b => PlaylistMove a b ;; ret RNothing
  | OPlaylistClear => PlaylistClear ;; ret RNothing
  | OPlaylistPlayLatest => PlaylistPlayLatest ;; ret RNothing
  | OCyclePaused => CyclePaused ;; ret RNothing
  | OCycleShuffle => CycleShuffle ;; ret RNothing
  | OCycleLoop => CycleLoop ;; ret RNothing
  | OPlay => Play ;; ret RNothing
  | OStop => Stop ;; ret RNothing
  | OSeekForward => SeekForward ;; ret RNothing
  | OSeekBackward => SeekBackward ;; ret RNothing
  | ONext => Next ;; ret RNothing
  | OPrev => Prev ;; ret RNothing
  end.


(** [LoadFile] indexes [files[0]]: it needs a file. *)
Definition has_file (o : Op) : bool :=
  match o with
  | OLoadFile _ _ [] => false
  | _ => true
  end.

(** ** The running system *)

(** The moves of the running system: the caller context runs one
    operation of the Connector, the event listener handles what its events
    channel yields, the monitor task takes a turn, or a consumer starts
    waiting on [MPVErrors]. *)
Inductive Action : Type :=
  | AOp (o : Op)
  | AEvent (got : option MpvEvent)
  | AMonitor
  | AReceive.

(** A consumer of [MPVErrors] parks on a receive. *)
Definition receive_MPVErrors : M unit :=
  modify (fun w =>
    let ch := MPVErrors w in
    if err_closed ch then w
    else set_MPVErrors (mkErrChan (S (err_receivers ch)) (err_delivered ch) false) w).

Definition step (a : Action) : M unit :=
  match a with
  | AOp o => run_op o ;; ret tt
  | AEvent got => eventListener_iter got ;; ret tt
  | AMonitor => monitorStart_iter ;; ret tt
  | AReceive => receive_MPVErrors
  end.

Fixpoint run (acts : list Action) : M unit :=
  match acts with
  | [] => ret tt
  | a :: rest => step a ;; run rest
  end.

(** The events a run added to the trace of [w]. *)
Definition since (w w' : World) : list event :=
  drop (length (trace w)) (trace w').

Definition forwarded (e : event) : bool :=
  match e with EPrim _ fwd => fwd | _ => false end.

(** The requests that entered [Call], [Get] or [Set], forwarded or not. *)
Definition issued (evs : list event) : list request :=
  omap (fun e => match e with EPrim r _ => Some r | _ => None end) evs.

End Connector.

Arguments World T : clear implicits.
Arguments M T A : clear implicits.
Arguments MpvEvent T : clear implicits.
Arguments Op T : clear implicits.
Arguments Result T : clear implicits.
Arguments Action T : clear implicits.
Arguments init_world T c : clear implicits.
Arguments load_options T title duration files : clear implicits.

(** ** The process launcher *)

(** The command-line settings [MPVConnect] reads through package
    variables, and the constant [userAgent]. *)
Record Flags : Type := mkFlags {
  mpvpath : string;
  ytdlpath : string;
  userAgent : string;
  connretries : Z
}.

(** What the launcher does to the outside, in program order. *)
Inductive LaunchEvent : Type :=
  | LStart (argv : list string)
  | LOpen
  | LSleep (seconds : Z).

Section Launcher.

Context {T : Env}.

(** The loop [for i := 0; i < *connretries; i++] with [n] turns left. *)
Fixpoint connect_loop (n : nat) (c : Conn T) : option (Conn T) * error * list LaunchEvent :=
  match n with
  | O => (None, Some ConnectTimeoutError, [])
  | S n' =>
      match conn_Open T c with
      | (Some _, c') =>
          let '(r, err, evs) := connect_loop n' c' in
          (r, err, LOpen :: LSleep 1 :: evs)
      | (None, c') => (Some c', None, [LOpen])
      end
  end.

Definition mpv_argv (fl : Flags) (socket : string) : list string :=
  [ mpvpath fl;
    "--idle";
    "--keep-open";
    "--no-terminal";
    "--really-quiet";
    "--no-input-terminal";
    "--user-agent=" ++ userAgent fl;
    "--input-ipc-server=" ++ socket;
    "--script-opts=ytdl_hook-ytdl_path=" ++ ytdlpath fl ].

Definition MPVConnect (fl : Flags) (socket : string) (mpvexec : bool)
  : option (Conn T) * error * list LaunchEvent :=
  let started :=
    if mpvexec then
      (is_err (exec_Start T (mpv_argv fl socket)), [LStart (mpv_argv fl socket)])
    else (false, []) in
  if started.1 then (None, Some LaunchError, started.2)
  else
    let '(r, err, evs) :=
      connect_loop (Z.to_nat (connretries fl)) (mpvipc_NewConnection T socket) in
    (r, err, (started.2 ++ evs)%list).

End Launcher.

Arguments MPVConnect T fl socket mpvexec : clear implicits.

(** The number of [conn.Open()] attempts and the seconds slept in a run of
    the launcher. *)
Definition open_attempts (evs : list LaunchEvent) : nat :=
  foldr (fun e acc => match e with LOpen => S acc | _ => acc end) O evs.

Definition seconds_slept (evs : list LaunchEvent) : Z :=
  foldr (fun e acc => match e with LSleep s => s + acc | _ => acc end) 0 evs.

(** The command lines with which the launcher started a process. *)
Definition launches (evs : list LaunchEvent) : list (list string) :=
  omap (fun e => match e with LStart argv => Some argv | _ => None end) evs.

(** ** Start-up, and the closing of other instances *)

Section Startup.

Context {T : Env}.

(** A method called on another Connector than [mpvctl]: it runs on that
    Connector's own connection and on the package variables of [w].  The
    third component is the Connector's connection afterwards. *)
Definition on_connector {A} (c : Conn T) (m : M T A) (w : World T)
  : Outcome A * World T * Conn T :=
  let '(out, w') := m (set_conn c w) in
  (out, set_conn (conn w) w', conn w').

(** [CloseInstances]: what it does to the package variables and to the
    outside.  [MPVConnect] hands back a Connector or an error; were it to
    hand back neither, the method call on the nil Connector would panic. *)
Definition CloseInstances (fl : Flags) (socket : string) (w : World T)
  : Outcome unit * World T * list LaunchEvent :=
  let '(c, err, evs) := MPVConnect T fl socket false in
  if is_err err then (Ret tt, w, evs)
  else
    match c with
    | None => (Panic "nil pointer dereference", w, evs)
    | Some c =>
        match on_connector c (MPVStop false) w with
        | (Ret _, w', _) => (Ret tt, w', (evs ++ [LSleep 2])%list)
        | (stopped, w', _) => (stopped, w', evs)
        end
    end.

(** The command that turns a key binding of the player off. *)
Definition keybind (key : string) : list (Value (float64 T)) :=
  [VString "keybind"; VString key; VString ""].

(** [MPVStart], given what [ConfigPath("socket")] returns: the error it
    returns, the package variables it leaves when it succeeds, and what
    the launcher did.  It is called once, while [loop] still has its zero
    value.  The two tasks it starts are the moves [AEvent] and [AMonitor]
    of the running system; the first command of the event listener is
    [eventListener_init]. *)
Definition MPVStart (fl : Flags) (config_path : string * error)
  : Outcome error * option (World T) * list LaunchEvent :=
  let '(socket, err) := config_path in
  if is_err err then (Ret err, None, [])
  else
    let '(c, err, evs) := MPVConnect T fl socket true in
    if is_err err then (Ret err, None, evs)
    else
      match c with
      | None => (Panic "nil pointer dereference", None, evs)
      | Some c =>
          let '(out, w) :=
            bind (Call (keybind "q")) (fun _ =>
            bind (Call (keybind "Ctrl+q")) (fun _ =>
            bind (Call (keybind "Shift+q")) (fun _ =>
            ret (None : error)))) (init_world T c) in
          (out, Some w, evs)
      end.

End Startup.

Arguments MPVStart T fl config_path : clear implicits.

(** ** The feed pages of [lib/feed.go] *)

(** One video of the feed, and the decoded answer. *)
Record FeedVideos : Type := mkFeedVideos {
  Type_ : string;
  Title : string;
  VideoID : string;
  LengthSeconds : Z;
  Author : string;
  AuthorID : string;
  AuthorURL : string;
  PublishedText : string;
  ViewCount : Z
}.

Record FeedResult : Type := mkFeedResult {
  Videos : list FeedVideos
}.

(** The HTTP side of the client: the state of the network and of the
    server, the request of the client and the decoding of an answer. *)
Record Http : Type := mkHttp {
  Response : Type;
  Net : Type;
  (** [c.ClientRequest(ClientCtx(), query, GetToken())] *)
  ClientRequest : string -> Net -> Response * error * Net;
  (** [json.NewDecoder(res.Body).Decode(&result)] into an empty result *)
  Decode : Response -> FeedResult * error;
  (** [res.Body.Close()] *)
  Body_Close : Response -> Net -> Net
}.

Section FeedClient.

Context {T : Env} {H : Http}.

(** The package variable [feedPage], the network, and the queries sent
    so far (a ghost).  [feedMutex] brackets single accesses only. *)
Record FeedState : Type := mkFeedState {
  feedPage : Z;
  net : Net H;
  queries : list string
}.

Definition getFeedPage (s : FeedState) : string := strconv_Itoa T (feedPage s).

Definition resetFeedPage (s : FeedState) : FeedState :=
  mkFeedState 1 (net s) (queries s).

Definition incFeedPage (s : FeedState) : FeedState :=
  mkFeedState (wrap_int (feedPage s + 1)) (net s) (queries s).

(** [Feed], run by one caller at a time. *)
Definition Feed (getmore : bool) (s : FeedState) : FeedResult * error * FeedState :=
  let s := if getmore then incFeedPage s else resetFeedPage s in
  let query := "auth/feed?hl=en&page=" ++ getFeedPage s in
  let '(res, err, n) := ClientRequest H query (net s) in
  let s := mkFeedState (feedPage s) n (queries s ++ [query])%list in
  if is_err err then (mkFeedResult [], err, s)
  else
    let '(result, err) := Decode H res in
    let s := mkFeedState (feedPage s) (Body_Close H res (net s)) (queries s) in
    if is_err err then (mkFeedResult [], err, s)
    else (result, None, s).

(** Calls of [Feed] in a row, their results dropped. *)
Fixpoint feeds (getmore : list bool) (s : FeedState) : FeedState :=
  match getmore with
  | [] => s
  | g :: rest => feeds rest (Feed g s).2
  end.

(** The query for the page numbered [page]. *)
Definition feed_query (page : Z) : string :=
  "auth/feed?hl=en&page=" ++ strconv_Itoa T page.

End FeedClient.

Arguments FeedState H : clear implicits.
Arguments getFeedPage T {H} s.
Arguments Feed T {H} getmore s.
Arguments feeds T {H} getmore s.
Arguments feed_query T page : clear implicits.

(** ** The lifecycle watcher of [ui/ui.go] *)

Module UI.

(** What the UI does to the rest of the application and to the outside. *)
Inductive Effect : Type :=
  | StopPlayer (closeInstances : bool)
  | AppStop
  | Remove (path : string)
  | Printf (text : string).

(** The channel [detectClose], on which nothing is ever sent, and the
    effects so far. *)
Record State : Type := mkState {
  detectClose : Chan unit;
  effects : list Effect
}.

Definition start : State := mkState (make_chan 0) [].

Definition emit (e : Effect) (s : State) : State :=
  mkState (detectClose s) (effects s ++ [e])%list.

Definition StopUI (closeInstances : bool) (s : State) : Outcome unit * State :=
  match chan_close (detectClose s) with
  | Ret ch =>
      (Ret tt, emit AppStop (emit (StopPlayer closeInstances) (mkState ch (effects s))))
  | Panic msg => (Panic msg, s)
  | Blocked => (Blocked, s)
  end.

(** What the watcher prints: a carriage return and its notice. *)
Definition exit_message : string := String "013"%char "MPV has exited".

(** [detectMPVClose], given whether the connection is closed (it waits in
    [WaitUntilClosed] until then) and what [lib.ConfigPath("socket")]
    returns. *)
Definition detectMPVClose (mpv_closed : bool) (config_path : string * error) (s : State)
  : Outcome unit * State :=
  if negb mpv_closed then (Blocked, s)
  else
    match chan_poll tt (detectClose s) with
    | Some (_, false, _) => (Ret tt, s)
    | got =>
        let s := match got with
                 | Some (_, _, ch) => mkState ch (effects s)
                 | None => s
                 end in
        match StopUI true s with
        | (Ret _, s) =>
            let s := if is_err config_path.2 then s else emit (Remove config_path.1) s in
            (Ret tt, emit (Printf exit_message) s)
        | stopped => stopped
        end
    end.

(** Teardowns of the application and removals of the socket file among
    the effects. *)
Definition is_teardown (e : Effect) : bool :=
  match e with AppStop => true | _ => false end.

Definition is_removal (e : Effect) : bool :=
  match e with Remove _ => true | _ => false end.

Definition teardowns (s : State) : nat := length (List.filter is_teardown (effects s)).

Definition removals (s : State) : nat := length (List.filter is_removal (effects s)).

(** The shutdown signal as the watcher finds it. *)
Definition signal_open (s : State) : Prop := detectClose s = make_chan 0.
Definition signal_closed (s : State) : Prop := detectClose s = mkChan [] 0 true.

End UI.

(** ** The keyboard and the banner of [ui/ui.go] *)

Module Front.

(** The keys the handlers tell apart. *)
Inductive Key : Type :=
  | KeyEnter
  | KeyEscape
  | KeyCtrlC
  | KeyCtrlD
  | KeyCtrlZ
  | KeyCtrlX
  | KeyOther.

(** A [*tcell.EventKey]: what [Key()] and [Rune()] return. *)
Record EventKey : Type := mkEventKey {
  key : Key;
  rune : Z
}.

(** The rune ['q']. *)
Definition rune_q : Z := 113.

(** What the handlers do to the rest of the application: the effects of
    the lifecycle part, and the calls into the other parts of the UI and
    into [lib]. *)
Inductive Act : Type :=
  | Core (e : UI.Effect)
  | ShowDashboard
  | VideoCancel
  | SearchCancel
  | PlaylistCancel
  | ClientSendCancel
  | closeCommentView
  | InfoMessage (text : string) (persist : bool)
  | SetInput (label : string) (max : Z)
  | RestoreInput
  | SwitchToPage
  | SetFocus
  | SuspendApp.

(** The channel [detectClose], the acts so far, and the package variable
    [appSuspend]. *)
Record State : Type := mkState {
  signal : Chan unit;
  acts : list Act;
  appSuspend : bool
}.

Definition start : State := mkState (make_chan 0) [] false.

Definition emit (a : Act) (s : State) : State :=
  mkState (signal s) (acts s ++ [a])%list (appSuspend s).

(** A function of the lifecycle part called from a handler: it runs on
    the same channel, and its effects are added to the acts. *)
Definition core (f : UI.State -> Outcome unit * UI.State) (s : State)
  : Outcome unit * State :=
  let '(out, u) := f (UI.mkState (signal s) []) in
  (out, mkState (UI.detectClose u) (acts s ++ map Core (UI.effects u))%list (appSuspend s)).

(** The three closures of [confirmQuit].  [qfocus] puts back the input
    line, the status page and the focus that [confirmQuit] saved. *)
Definition qfocus (s : State) : State :=
  emit SetFocus (emit SwitchToPage (emit RestoreInput s)).

Definition qfunc (text : string) (s : State) : Outcome unit * State :=
  if bool_decide (text = "y") then core (UI.StopUI false) s
  else (Ret tt, qfocus s).

(** [ifunc], given the event and what [InputBox.GetText()] returns. *)
Definition ifunc (e : EventKey) (text : string) (s : State) : Outcome EventKey * State :=
  match key e with
  | KeyEnter =>
      match qfunc text s with
      | (Ret _, s') => (Ret e, s')
      | (Panic msg, s') => (Panic msg, s')
      | (Blocked, s') => (Blocked, s')
      end
  | KeyEscape => (Ret e, qfocus s)
  | _ => (Ret e, s)
  end.

Definition confirmQuit (s : State) : State :=
  emit (SetInput "Quit? (y/n)" 1) s.

(** The input capture [SetupUI] installs on the application, given the
    name of the front page of [VPage] and whether the focus is on an
    input field.  The result is the event handed on, if any. *)
Definition inputCapture (event : EventKey) (front_page : string) (focus_is_input : bool)
    (s : State) : option EventKey * State :=
  match key event with
  | KeyCtrlC => (None, s)
  | k =>
      let s :=
        match k with
        | KeyCtrlD =>
            if bool_decide (front_page <> "dashboard") then emit ShowDashboard s else s
        | KeyCtrlZ => mkState (signal s) (acts s) true
        | KeyCtrlX =>
            emit (InfoMessage "Loading canceled" false)
              (emit closeCommentView
                 (emit ClientSendCancel
                    (emit PlaylistCancel (emit SearchCancel (emit VideoCancel s)))))
        | _ => s
        end in
      if bool_decide (rune event = rune_q) then
        if negb focus_is_input then (None, confirmQuit s) else (Some event, s)
      else (Some event, s)
  end.

(** [suspendUI], called after every draw. *)
Definition suspendUI (s : State) : State :=
  if negb (appSuspend s) then s
  else mkState (signal s) (acts s ++ [SuspendApp])%list false.

(** The watcher of the lifecycle part, run on this state. *)
Definition detectMPVClose (mpv_closed : bool) (config_path : string * error) (s : State)
  : Outcome unit * State :=
  core (UI.detectMPVClose mpv_closed config_path) s.

(** The application teardowns among the acts. *)
Definition stops (s : State) : nat :=
  length (List.filter (fun a => match a with Core UI.AppStop => true | _ => false end)
            (acts s)).

(** The constant [banner]. *)
Definition banner : string := "
   (_)____  _   __ (_)____/ // /_ __  __ (_)
  / // __ \| | / // // __  // __// / / // /
 / // / / /| |/ // // /_/ // /_ / /_/ // /
/_//_/ /_/ |___//_/ \__,_/ \__/ \__,_//_/
".

Definition newline : ascii := "010"%char.

(** [strings.Split(s, sep)] for a separator of one byte. *)
Fixpoint split_on (sep : ascii) (s : string) : list string :=
  match s with
  | EmptyString => [EmptyString]
  | String a rest =>
      if Ascii.eqb a sep then EmptyString :: split_on sep rest
      else
        match split_on sep rest with
        | line :: lines => String a line :: lines
        | [] => [String a EmptyString]
        end
  end.

(** The width and the height [showBanner] gives the box of the banner
    text: [bannerWidth] and [bannerHeight] at the end of its loop. *)
Definition showBanner (text : string) : nat * nat :=
  let lines := split_on newline text in
  (foldl (fun bannerWidth line =>
            if (bannerWidth <? String.length line)%nat then String.length line
            else bannerWidth) 0%nat lines,
   length lines).

(** [strings.Join(lines, sep)] for a separator of one byte, and the
    number of times a byte occurs in a string. *)
Fixpoint join (sep : ascii) (lines : list string) : string :=
  match lines with
  | [] => EmptyString
  | [line] => line
  | line :: rest => line ++ String sep (join sep rest)
  end.

Fixpoint occurrences (a : ascii) (s : string) : nat :=
  match s with
  | EmptyString => O
  | String b rest => if Ascii.eqb b a then S (occurrences a rest) else occurrences a rest
  end.

(** What the input capture does for the key of an event, before it
    looks at the rune. *)
Definition key_acts (k : Key) (front_page : string) : list Act :=
  match k with
  | KeyCtrlD => if bool_decide (front_page <> "dashboard") then [ShowDashboard] else []
  | KeyCtrlX =>
      [VideoCancel; SearchCancel; PlaylistCancel; ClientSendCancel; closeCommentView;
       InfoMessage "Loading canceled" false]
  | _ => []
  end.

#[global] Instance Key_eq_dec : EqDecision Key.
Proof. solve_decision. Defined.

(** The key [Enter] as the input line gets it, and a typed ['q']. *)
Definition enter : EventKey := mkEventKey KeyEnter 13.
Definition typed_q : EventKey := mkEventKey KeyOther rune_q.

End Front.

(** A server for the examples: it answers every query with the feed of
    one video, or fails every request when it is [failing]. *)
Module Server.

Definition video : FeedVideos :=
  mkFeedVideos "shortVideo" "A video" "dQw4w9WgXcQ" 212 "An author" "UC0" "/channel/UC0"
    "1 day ago" 1000.

Definition http (failing : bool) : Http := {|
  Response := string;
  Net := nat;
  ClientRequest := fun query n =>
    (query, if failing then Some "request failed" else None, S n);
  Decode := fun _ => (mkFeedResult [video], None);
  Body_Close := fun _ n => n
|}.

(** The feed state of a program that has just started. *)
Definition fresh_feed (failing : bool) : FeedState (http failing) :=
  @mkFeedState (http failing) 0 O [].

End Server.

(** * The vocabulary of the properties *)

Section Vocabulary.

Context {T : Env}.

Implicit Types (w : World T) (o : Op T).

(** ** Closed connection, requests and events *)

(** What each operation hands back once the connection is closed. *)
Definition closed_result o : Result T :=
  match o with
  | OCall _ | OGet _ => RValue VNil (Some ConnectionClosedError)
  | OSet _ _ => RError (Some ConnectionClosedError)
  | OLoadFile title _ _ => RError (Some (LoadError title))
  | OLoadPlaylist plpath _ => RError (Some (LoadError plpath))
  | OIsPaused | OIsShuffle | OIsEOF | OIsIdle => RBool false
  | OMediaType => RString "Audio"
  | OLoopType _ | OPlaylistData => RString ""
  | OTimePosition | ODuration | OPlaylistCount | OPlaylistPos => RInt 0
  | OPlaylistTitle _ => RString "-"
  | _ => RNothing
  end.

(** A run that only added entries which never reached the transport. *)
Definition untouched w w' : Prop :=
  conn w' = conn w /\
  exists evs, trace w' = (trace w ++ evs)%list /\ Forall (fun e => forwarded e = false) evs.

(** The values [CycleLoop] gives the two loop properties. *)
Definition yes : Value (float64 T) := VString "yes".
Definition no : Value (float64 T) := VString "no".

(** The two commands of [CyclePaused]. *)
Definition seek_to_start : Request (float64 T) :=
  RCall [VString "seek"; VInt 0; VString "absolute-percent"].
Definition toggle_pause : Request (float64 T) :=
  RCall [VString "cycle"; VString "pause"].

(** The requests [CyclePaused] is to issue in [w], read off the answers of
    its two queries. *)
Definition cycle_paused_requests w : list (Request (float64 T)) :=
  match IsEOF w with
  | (Ret true, w1) =>
      match IsPaused w1 with
      | (Ret true, _) => [RGet "eof-reached"; RGet "pause"; seek_to_start; toggle_pause]
      | (Ret false, _) => [RGet "eof-reached"; RGet "pause"; toggle_pause]
      | _ => [RGet "eof-reached"; RGet "pause"]
      end
  | (Ret false, _) => [RGet "eof-reached"; toggle_pause]
  | _ => [RGet "eof-reached"]
  end.


(** The arguments of the call in [LoadFile] and in [LoadPlaylist]. *)
Definition loadfile_args (title : string) (duration : Z) (f : string) (fs : list string)
  : list (Value (float64 T)) :=
  [VString "loadfile"; VString f; VString "append-play";
   VString (load_options T title duration (f :: fs))].

Definition loadlist_args (plpath : string) (replace : bool) : list (Value (float64 T)) :=
  [VString "loadlist"; VString plpath; VString (if replace then "replace" else "append-play")].

(** The event that entry [f] started, and the event that it ended with
    the error [file_error]. *)
Definition start_file (f : float64 T) : MpvEvent T :=
  mkEvent "start-file" {[ "playlist_entry_id" := VFloat f ]}.

Definition end_file (f : float64 T) (file_error : string) : MpvEvent T :=
  mkEvent "end-file"
    (<[ "file_error" := VString file_error ]> {[ "playlist_entry_id" := VFloat f ]}).

(** ** What a run keeps *)

Section Keeps.

Context (R : relation (World T)).

(** Every run of [m], however it ends, leaves a world related to the one
    it started in. *)
Definition keeps {A} (m : M T A) : Prop := forall w, R w (m w).2.

(** [R] relates a world to what a primitive makes of it. *)
Definition prim_frame : Prop :=
  forall w e c,
    (conn_IsClosed T (conn w) = true -> c = conn w) -> R w (log e (set_conn c w)).

End Keeps.

(** The info queue keeps its open/closed state and a closed connection
    stays closed. *)
Definition steady : relation (World T) := fun w w' =>
  ch_closed (mpvInfoChan w') = ch_closed (mpvInfoChan w) /\
  (conn_IsClosed T (conn w) = true -> conn_IsClosed T (conn w') = true).

(** The monitor map gains no entry. *)
Definition shrinks : relation (World T) := fun w w' =>
  monitorMap w' ⊆ monitorMap w.


(** ** Reachable states *)

(** The contract of [Close] the event listener relies on. *)
Definition closing_closes : Prop :=
  forall c, conn_IsClosed T (conn_Close T c) = true.

(** The states of the running system: from the state [MPVStart] sets up,
    by moves that return. *)
Inductive reachable (c0 : Conn T) : World T -> Prop :=
  | reachable_start : reachable c0 (init_world T c0)
  | reachable_step a w w' :
      reachable c0 w -> step a w = (Ret tt, w') -> reachable c0 w'.


(** ** Loads matched with their start events *)

(** A load as the monitor sees it: [LoadFile] with at least one file, or
    [LoadPlaylist] in either mode. *)
Inductive Load : Type :=
  | FileLoad (title : string) (duration : Z) (file : string) (more : list string)
  | ListLoad (plpath : string) (replace : bool).

(** The operation of the Connector that performs the load. *)
Definition load_op (l : Load) : Op T :=
  match l with
  | FileLoad title duration file more => OLoadFile title duration (file :: more)
  | ListLoad plpath replace => OLoadPlaylist plpath replace
  end.

(** The title the load registers with the monitor. *)
Definition load_title (l : Load) : string :=
  match l with
  | FileLoad title _ _ _ => title
  | ListLoad _ _ => "playlist entry"
  end.

(** The loads that clear the monitor before their call. *)
Definition replaces (l : Load) : bool :=
  match l with
  | FileLoad _ _ _ _ => false
  | ListLoad _ replace => replace
  end.

(** The error by which the load reports that its call failed. *)
Definition load_error (l : Load) : string :=
  match l with
  | FileLoad title _ _ _ => LoadError title
  | ListLoad plpath _ => LoadError plpath
  end.

(** The first half of a load, up to the return of its call: the result
    is the error the load is about to return, if any.  The second half
    is [addToMonitor] on the title, which the load goes on to only when
    there is no error. *)
Definition request (l : Load) : M T error :=
  bind (if replaces l then clearMonitor else ret tt) (fun _ =>
  bind (Call (match l with
              | FileLoad title duration file more => loadfile_args title duration file more
              | ListLoad plpath replace => loadlist_args plpath replace
              end)) (fun x =>
  ret (if is_err x.2 then Some (load_error l) else None))).

(** One round of the exchange between player, listener, caller and
    monitor task.  [Started f l]: the player announces the start of entry
    [f], then the load [l] returns and registers its title.  [Failed f
    reason watched]: a consumer is waiting on [MPVErrors] (if [watched]),
    the player reports that entry [f] ended with the error [reason], and
    the monitor task takes its turn. *)
Inductive Round : Type :=
  | Started (f : float64 T) (l : Load)
  | Failed (f : float64 T) (reason : string) (watched : bool).

(** The moves of a round, in order. *)
Definition round_actions (r : Round) : list (Action T) :=
  match r with
  | Started f l => [AEvent (Some (start_file f)); AOp (load_op l)]
  | Failed f reason watched =>
      (if watched then [AReceive] else []) ++
      [AEvent (Some (end_file f reason)); AMonitor]
  end%list.

(** The error of a failed round is not the empty string. *)
Definition valid_round (r : Round) : Prop :=
  match r with
  | Started _ _ => True
  | Failed _ reason _ => reason <> ""
  end.

(** What the rounds should leave: the monitor map and the titles handed
    to the consumers of [MPVErrors]. *)
Fixpoint expected (rs : list Round) (m : gmap Z string) (out : list string)
  : gmap Z string * list string :=
  match rs with
  | [] => (m, out)
  | Started f l :: rs =>
      expected rs (<[float_to_int T f := load_title l]> (if replaces l then ∅ else m)) out
  | Failed f _ watched :: rs =>
      let id := float_to_int T f in
      expected rs (delete id m) (if watched then out ++ [default "" (m !! id)] else out)%list
  end.

(** The title the rounds leave against the identifier [id], given what the
    map held for it before: that of the load last started under [id],
    unless a failure of [id] or a replacing load came after. *)
Fixpoint tracked (id : Z) (rs : list Round) (now : option string) : option string :=
  match rs with
  | [] => now
  | Started f l :: rs =>
      tracked id rs (if decide (float_to_int T f = id) then Some (load_title l)
                     else if replaces l then None else now)
  | Failed f _ _ :: rs =>
      tracked id rs (if decide (float_to_int T f = id) then None else now)
  end.

(** The transport takes every command on an open connection and keeps
    the connection open. *)
Definition accepting : Prop :=
  forall args c,
    conn_IsClosed T c = false ->
    exists v c', conn_Call T args c = (v, None, c') /\ conn_IsClosed T c' = false.

(** Nothing is in flight: the connection is open, both queues are open
    and empty, and no consumer is waiting on the open [MPVErrors]. *)
Definition idle w : Prop :=
  conn_IsClosed T (conn w) = false /\
  (exists n, mpvInfoChan w = mkChan [] (S n) false) /\
  (exists n, mpvErrorChan w = mkChan [] (S n) false) /\
  (exists out, MPVErrors w = mkErrChan 0 out false).

(** ** Connection attempts *)

(** The connection after [k] attempts to open it have all failed, if they
    do. *)
Fixpoint refused (k : nat) (c : Conn T) : option (Conn T) :=
  match k with
  | O => Some c
  | S k' =>
      match conn_Open T c with
      | (Some _, c') => refused k' c'
      | (None, _) => None
      end
  end.

(** [k] failed attempts, each followed by its one-second sleep. *)
Definition failed_attempts (k : nat) : list LaunchEvent :=
  concat (replicate k [LOpen; LSleep 1]).

End Vocabulary.

Arguments steady T : clear implicits.
Arguments shrinks T : clear implicits.
Arguments closing_closes T : clear implicits.
Arguments accepting T : clear implicits.
Arguments Round T : clear implicits.

(** ** The monitor beyond single rounds *)

Section Housekeeping.

Context {T : Env}.

Implicit Types (w : World T).

(** Titles registered one after the other, as successive loads that
    succeed register them. *)
Fixpoint register (names : list string) : M T unit :=
  match names with
  | [] => ret tt
  | name :: rest => bind (addToMonitor name) (fun _ => register rest)
  end.

(** The map with the given entries written in order, and with the given
    identifiers deleted. *)
Definition with_entries (m : gmap Z string) (entries : list (Z * string)) : gmap Z string :=
  foldl (fun m e => <[e.1 := e.2]> m) m entries.

(** The map after the loads have registered under the identifiers paired
    with them, in order; a replacing load clears what was there. *)
Definition after_loads (m : gmap Z string) (loads : list (Z * Load)) : gmap Z string :=
  foldl (fun m e => <[e.1 := load_title e.2]> (if replaces e.2 then ∅ else m)) m loads.

Definition without (m : gmap Z string) (ids : list Z) : gmap Z string :=
  foldl (fun m id => delete id m) m ids.

(** The identifier the next registration takes, if any. *)
Definition next_id w : option Z :=
  match chan_poll 0 (mpvInfoChan w) with
  | Some (id, _, _) => Some id
  | None => None
  end.

(** The values [CycleLoop] gives the package variable [loop]. *)
Definition loop_states : list string := [""; "loop-file"; "loop-playlist"].

(** What the caller context leaves to the two background tasks: the
    error queue and [MPVErrors] as they are, the info queue neither
    closed nor resized nor filled; and [loop] within its three states. *)
Definition calm : relation (World T) := fun w w' =>
  mpvErrorChan w' = mpvErrorChan w /\
  MPVErrors w' = MPVErrors w /\
  ch_cap (mpvInfoChan w') = ch_cap (mpvInfoChan w) /\
  ch_closed (mpvInfoChan w') = ch_closed (mpvInfoChan w) /\
  (length (ch_buf (mpvInfoChan w')) <= length (ch_buf (mpvInfoChan w)))%nat /\
  (loop w ∈ loop_states -> loop w' ∈ loop_states).

(** The shape of the package variables while the system runs: [loop] in
    one of its three states, the three channels open or closed together,
    and both queues of capacity 100 and within it. *)
Definition settled w : Prop :=
  loop w ∈ loop_states /\
  ch_closed (mpvInfoChan w) = err_closed (MPVErrors w) /\
  ch_closed (mpvErrorChan w) = err_closed (MPVErrors w) /\
  ch_cap (mpvInfoChan w) = 100%nat /\
  ch_cap (mpvErrorChan w) = 100%nat /\
  (length (ch_buf (mpvInfoChan w)) <= 100)%nat /\
  (length (ch_buf (mpvErrorChan w)) <= 100)%nat.

(** A world that differs from [w] in the connection and the trace at
    most. *)
Definition same_monitor w w' : Prop :=
  loop w' = loop w /\ monitorMap w' = monitorMap w /\
  mpvInfoChan w' = mpvInfoChan w /\ mpvErrorChan w' = mpvErrorChan w /\
  MPVErrors w' = MPVErrors w.

(** The requests of [LoopType] and the answers that mean a loop. *)
Definition ask_loop_file : list (Value (float64 T)) :=
  [VString "get_property_string"; VString "loop-file"].
Definition ask_loop_playlist : list (Value (float64 T)) :=
  [VString "get_property_string"; VString "loop-playlist"].
Definition means_loop (v : Value (float64 T)) : Prop :=
  v = VString "yes" \/ v = VString "inf".

(** The dynamic type of a reply. *)
Definition is_bool (v : Value (float64 T)) : bool :=
  match v with VBool _ => true | _ => false end.

Definition is_float64 (v : Value (float64 T)) : bool :=
  match v with VFloat _ => true | _ => false end.

(** A get of the mutator [o] in [w] succeeds, without error, with a
    value that is not of the type the mutator asserts: the flag that
    [CyclePaused] reads from "eof-reached" and then, if that is true,
    from "pause", and the count [PlaylistPlayLatest] reads from
    "playlist-count".  The other mutators read nothing. *)
Definition ill_typed_reply (o : Op T) w : bool :=
  match o with
  | OCyclePaused =>
      match Get "eof-reached" w with
      | (Ret (eof, None), w1) =>
          match eof with
          | VBool true =>
              match Get "pause" w1 with
              | (Ret (paused, None), _) => negb (is_bool paused)
              | _ => false
              end
          | VBool false => false
          | _ => true
          end
      | _ => false
      end
  | OPlaylistPlayLatest =>
      match Get "playlist-count" w with
      | (Ret (count, None), _) => negb (is_float64 count)
      | _ => false
      end
  | _ => false
  end.


(** The operations that write a package variable of the monitor or
    [loop]. *)
Definition writes_monitor (o : Op T) : bool :=
  match o with
  | OLoadFile _ _ _ | OLoadPlaylist _ _ | OPlaylistClear | OCycleLoop => true
  | _ => false
  end.

(** From a closed connection: the connection is closed afterwards too,
    and nothing that was added to the trace went to the transport. *)
Definition silent : relation (World T) := fun w w' =>
  conn_IsClosed T (conn w) = true ->
  conn_IsClosed T (conn w') = true /\
  exists evs, trace w' = (trace w ++ evs)%list /\ Forall (fun e => forwarded e = false) evs.

(** A batch: the player announces the start of the entries [fs], then
    the loads [ls] return one after the other. *)
Definition batch (fs : list (float64 T)) (ls : list Load) : list (Action T) :=
  (map (fun f => AEvent (Some (start_file f))) fs ++ map (fun l => AOp (load_op l)) ls)%list.

End Housekeeping.

Arguments calm T : clear implicits.
Arguments silent T : clear implicits.

(** ** A simulated player

    A small concrete [Env], used to run the definitions on examples: a
    player that stores properties and answers every command with nil, or
    with an error when it is [rejecting], and whose socket refuses the
    first [refusals] connection attempts. *)

Module Sim.

Record conn : Type := mkConn {
  closed : bool;
  refusals : nat;
  props : gmap string (Value Z)
}.

Definition open (c : conn) : error * conn :=
  match refusals c with
  | S n => (Some "connection refused", mkConn true n (props c))
  | O => (None, mkConn false O (props c))
  end.

Definition call (rejecting : bool) (args : list (Value Z)) (c : conn)
  : Value Z * error * conn :=
  if rejecting then (VNil, Some "error running command", c)
  else (VNil, None, c).

Definition get (prop : string) (c : conn) : Value Z * error * conn :=
  match props c !! prop with
  | Some v => (v, None, c)
  | None => (VNil, Some "property unavailable", c)
  end.

Definition set (prop : string) (v : Value Z) (c : conn) : error * conn :=
  (None, mkConn (closed c) (refusals c) (<[prop := v]> (props c))).

Definition close (c : conn) : conn :=
  mkConn true (refusals c) (props c).

Definition itoa (z : Z) : string := NilZero.string_of_int (Z.to_int z).

Definition atoi (s : string) : Z * error :=
  match NilZero.int_of_string s with
  | Some i => (Z.of_int i, None)
  | None => (0, Some "invalid syntax")
  end.

(** The environment in which the socket refuses [n] attempts, launching
    mpv succeeds, and commands are rejected or not. *)
Definition env (n : nat) (rejecting : bool) : Env := {|
  float64 := Z;
  float_to_int := fun z => z;
  Conn := conn;
  mpvipc_NewConnection := fun _ => mkConn true n ∅;
  conn_Open := open;
  conn_IsClosed := closed;
  conn_Close := close;
  conn_Call := call rejecting;
  conn_Get := get;
  conn_Set := set;
  exec_Start := fun _ => None;
  strconv_Itoa := itoa;
  strconv_Atoi := atoi;
  sockPath := "/tmp/invidtui/socket"
|}.

(** A player that is up and takes commands, and one that rejects them. *)
Definition player : Env := env 0 false.
Definition stubborn : Env := env 0 true.

(** Connections: a live one holding the given properties, and a closed
    one. *)
Definition live (ps : list (string * Value Z)) : conn :=
  mkConn false O (list_to_map ps).
Definition dead : conn := mkConn true O ∅.

Definition flags (retries : Z) : Flags :=
  mkFlags "mpv" "youtube-dl" "invidtui" retries.

End Sim.

(** ** Sample states of the simulated player *)

Definition song_a : Op Sim.player := OLoadFile "Song A" 180 ["a.m4a"].
Definition song_b : Op Sim.player := OLoadFile "Song B" 200 ["b.m4a"].

Definition up : World Sim.player := init_world Sim.player (Sim.live []).
Definition down : World Sim.player := init_world Sim.player Sim.dead.

Definition paused_at_end : World Sim.player :=
  init_world Sim.player (Sim.live [("eof-reached", VBool true); ("pause", VBool true)]).

Definition sulking : World Sim.stubborn := init_world Sim.stubborn (Sim.live []).

Definition tracking : World Sim.stubborn :=
  set_monitorMap {[ 7 := "Song A" ]} sulking.

Definition started_7 : Action Sim.player := AEvent (Some (start_file (T := Sim.player) 7)).
Definition started_8 : Action Sim.player := AEvent (Some (start_file (T := Sim.player) 8)).

Definition song_a_fails : list (Round Sim.player) :=
  [ @Started Sim.player 7 (FileLoad "Song A" 180 "a.m4a" []);
    @Started Sim.player 8 (FileLoad "Song B" 200 "b.m4a" []);
    @Failed Sim.player 7 "loading failed" true ].

Definition pending_7 : World Sim.player := (step started_7 up).2.



(** A player that also answers [get_property_string], from its
    properties. *)
Module Echo.

Definition call (args : list (Value Z)) (c : Sim.conn) : Value Z * error * Sim.conn :=
  match args with
  | [VString cmd; VString prop] =>
      if bool_decide (cmd = "get_property_string") then Sim.get prop c else (VNil, None, c)
  | _ => (VNil, None, c)
  end.

Definition player : Env := {|
  float64 := Z;
  float_to_int := fun z => z;
  Conn := Sim.conn;
  mpvipc_NewConnection := fun _ => Sim.mkConn true O ∅;
  conn_Open := Sim.open;
  conn_IsClosed := Sim.closed;
  conn_Close := Sim.close;
  conn_Call := call;
  conn_Get := Sim.get;
  conn_Set := Sim.set;
  exec_Start := fun _ => None;
  strconv_Itoa := Sim.itoa;
  strconv_Atoi := Sim.atoi;
  sockPath := "/tmp/invidtui/socket"
|}.

End Echo.

(** The playlist of this player is on loop. *)
Definition looping : World Echo.player :=
  init_world Echo.player
    (Sim.live [("loop-file", VString "no"); ("loop-playlist", VString "inf")]).

(** Two identifiers pending in the info queue; the same on the player
    that rejects every command. *)
Definition two_pending : World Sim.player :=
  set_mpvInfoChan (mkChan [7; 8] 100 false) up.

Definition sulking_pending : World Sim.stubborn :=
  set_mpvInfoChan (mkChan [7] 100 false) sulking.

(** Two titles tracked, both entries reported as failed, and one
    consumer waiting on [MPVErrors]. *)
Definition two_failed : World Sim.player :=
  set_MPVErrors (mkErrChan 1 [] false)
    (set_mpvErrorChan (mkChan [7; 8] 100 false)
       (set_monitorMap (<[ 7 := "Song A" ]> {[ 8 := "Song B" ]}) up)).

(** An event the listener has no use for, and a start event whose entry
    identifier is a string. *)
Definition paused : MpvEvent Sim.player := @mkEvent Sim.player "pause" ∅.

Definition odd_start : MpvEvent Sim.player :=
  @mkEvent Sim.player "start-file" {[ "playlist_entry_id" := VString "7" ]}.

(** A player whose end-of-file flag is a string. *)
Definition odd_flag : World Sim.player :=
  init_world Sim.player (Sim.live [("eof-reached", VString "yes")]).

(** A player that knows the length option of its entry and no
    duration. *)
Definition no_duration : World Sim.player :=
  init_world Sim.player (Sim.live [("options/length", VString "180")]).

(** What goes on after the connection is closed, for one. *)
Definition afterwards : list (Action Sim.player) :=
  [AOp song_a; started_7; AOp (@OPlay Sim.player); AEvent None].

(** The loads of two songs, and then of a playlist that replaces
    them. *)
Definition two_songs : list Load :=
  [FileLoad "Song A" 180 "a.m4a" []; FileLoad "Song B" 200 "b.m4a" []].

Definition songs_then_list : list Load :=
  [FileLoad "Song A" 180 "a.m4a" []; FileLoad "Song B" 200 "b.m4a" [];
   ListLoad "list.m3u" true].

(** * Properties *)

Section ConnectorProperties.

Context {T : Env}.

Implicit Types (w : World T) (o : Op T).

(** ** The primitives on a closed connection *)

Lemma Call_closed args w :
  conn_IsClosed T (conn w) = true ->
  Call args w = (Ret (VNil, Some ConnectionClosedError), log (EPrim (RCall args) false) w).
Proof. intros H. unfold Call, bind, IsClosed, gets. rewrite H. reflexivity. Qed.

Lemma Get_closed prop w :
  conn_IsClosed T (conn w) = true ->
  Get prop w = (Ret (VNil, Some ConnectionClosedError), log (EPrim (RGet prop) false) w).
Proof. intros H. unfold Get, bind, IsClosed, gets. rewrite H. reflexivity. Qed.

Lemma Set_closed prop v w :
  conn_IsClosed T (conn w) = true ->
  Set_ prop v w = (Ret (Some ConnectionClosedError), log (EPrim (RSet prop v) false) w).
Proof. intros H. unfold Set_, bind, IsClosed, gets. rewrite H. reflexivity. Qed.

Ltac closed_run H :=
  cbv [run_op MPVStop LoadFile LoadPlaylist IsPaused IsShuffle IsEOF IsIdle MediaType
       LoopType TimePosition Duration PlaylistData PlaylistCount PlaylistPos
       PlaylistTitle SetPlaylistPos PlaylistDelete PlaylistMove PlaylistClear
       PlaylistPlayLatest CyclePaused CycleShuffle CycleLoop Play Stop SeekForward
       SeekBackward Next Prev clearMonitor IsClosed bind ret modify gets];
  repeat first
    [ rewrite H
    | rewrite Call_closed by (cbn; exact H)
    | rewrite Get_closed by (cbn; exact H)
    | rewrite Set_closed by (cbn; exact H)
    | progress cbn [is_err is_nil fst snd] ].

Ltac untouched_done :=
  split; [reflexivity|];
  split; [reflexivity|];
  eexists; split;
  [ cbn [trace log set_loop set_monitorMap]; rewrite <- ?app_assoc; try reflexivity;
    symmetry; apply app_nil_r
  | repeat constructor ].

(** C1 (as amended): once the connection is closed, no operation of the
    Connector reaches the transport.  [Call], [Get] and [Set] return the
    error "Connection closed"; the load operations return their own
    "Unable to load ..." error; the state queries return their defaults
    (false, 0, the empty string, "Audio", and "-" for a playlist title);
    the other mutators and [MPVStop] return nothing.  None of them panics
    or blocks. *)
Theorem closed_connection_fails_fast o w :
  conn_IsClosed T (conn w) = true ->
  has_file o = true ->
  (run_op o w).1 = Ret (closed_result o) /\ untouched w (run_op o w).2.
Proof.
  intros H Hf. unfold untouched.
  destruct o; try (closed_run H; untouched_done).
  - destruct files as [|f0 fs]; [discriminate Hf|]. closed_run H; untouched_done.
  - destruct replace; closed_run H; untouched_done.
  - closed_run H. repeat case_bool_decide; closed_run H; untouched_done.
Qed.

(** ** The primitives in general *)

(** A primitive always returns; it adds one entry to the trace and may
    replace the connection state, nothing else. *)
Lemma Call_spec args w :
  exists v err fwd c,
    Call args w = (Ret (v, err), log (EPrim (RCall args) fwd) (set_conn c w)) /\
    err = (if conn_IsClosed T (conn w) then Some ConnectionClosedError
           else (conn_Call T args (conn w)).1.2).
Proof.
  unfold Call, bind, IsClosed, gets.
  destruct (conn_IsClosed T (conn w)) eqn:Hc.
  - exists VNil, (Some ConnectionClosedError), false, (conn w). by destruct w.
  - destruct (conn_Call T args (conn w)) as [[v err] c]. by exists v, err, true, c.
Qed.

Lemma Get_spec prop w :
  exists v err fwd c,
    Get prop w = (Ret (v, err), log (EPrim (RGet prop) fwd) (set_conn c w)).
Proof.
  unfold Get, bind, IsClosed, gets.
  destruct (conn_IsClosed T (conn w)) eqn:Hc.
  - exists VNil, (Some ConnectionClosedError), false, (conn w). by destruct w.
  - destruct (conn_Get T prop (conn w)) as [[v err] c]. by exists v, err, true, c.
Qed.

Lemma Set_spec prop v w :
  exists err fwd c,
    Set_ prop v w = (Ret err, log (EPrim (RSet prop v) fwd) (set_conn c w)).
Proof.
  unfold Set_, bind, IsClosed, gets.
  destruct (conn_IsClosed T (conn w)) eqn:Hc.
  - exists (Some ConnectionClosedError), false, (conn w). by destruct w.
  - destruct (conn_Set T prop v (conn w)) as [err c]. by exists err, true, c.
Qed.

Lemma since_app w w' evs : trace w' = (trace w ++ evs)%list -> since w w' = evs.
Proof. intros E. unfold since. rewrite E. apply drop_app_length. Qed.

(** Run the next primitive of the goal symbolically. *)
Ltac run_prim :=
  match goal with
  | |- context [Call ?a ?w] =>
      let v := fresh "v" in let e := fresh "err" in
      let f := fresh "fwd" in let c := fresh "c" in let E := fresh "E" in
      destruct (Call_spec a w) as (v & e & f & c & E & _); rewrite E; clear E
  | |- context [Get ?p ?w] =>
      let v := fresh "v" in let e := fresh "err" in
      let f := fresh "fwd" in let c := fresh "c" in let E := fresh "E" in
      destruct (Get_spec p w) as (v & e & f & c & E); rewrite E; clear E
  | |- context [Set_ ?p ?x ?w] =>
      let e := fresh "err" in
      let f := fresh "fwd" in let c := fresh "c" in let E := fresh "E" in
      destruct (Set_spec p x w) as (e & f & c & E); rewrite E; clear E
  end.

Ltac unfold_ops :=
  cbv [run_op MPVStop IsPaused IsShuffle IsEOF IsIdle MediaType
       LoopType TimePosition Duration PlaylistData PlaylistCount PlaylistPos
       PlaylistTitle SetPlaylistPos PlaylistDelete PlaylistMove PlaylistClear
       PlaylistPlayLatest CyclePaused CycleShuffle CycleLoop Play Stop SeekForward
       SeekBackward Next Prev clearMonitor as_bool as_float64 as_string panic
       IsClosed bind ret modify gets].

Ltac since_done :=
  cbn [trace log set_conn set_loop set_monitorMap set_mpvInfoChan fst snd];
  rewrite <- ?app_assoc; reflexivity.

(** ** CycleLoop *)

(** C5: from the loop state "none", three calls of [CycleLoop] go through
    loop-file and loop-playlist back to "none"; each call sets both
    underlying properties, loop-file first, to (yes, no), (no, yes) and
    (no, no) in turn, so never both to yes.  And whatever the state, one
    call sets the pair to one of these three combinations or sets
    nothing. *)
Theorem CycleLoop_rotates w :
  loop w = "" ->
  let w1 := (CycleLoop w).2 in
  let w2 := (CycleLoop w1).2 in
  let w3 := (CycleLoop w2).2 in
  ((CycleLoop w).1 = Ret tt /\ (CycleLoop w1).1 = Ret tt /\ (CycleLoop w2).1 = Ret tt) /\
  (loop w1 = "loop-file" /\ loop w2 = "loop-playlist" /\ loop w3 = "") /\
  issued (since w w1) = [RSet "loop-file" yes; RSet "loop-playlist" no] /\
  issued (since w1 w2) = [RSet "loop-file" no; RSet "loop-playlist" yes] /\
  issued (since w2 w3) = [RSet "loop-file" no; RSet "loop-playlist" no] /\
  (forall u : World T,
     issued (since u (CycleLoop u).2) = [] \/
     exists a b, issued (since u (CycleLoop u).2) = [RSet "loop-file" a; RSet "loop-playlist" b] /\
                 (a, b) ∈ [(yes, no); (no, yes); (no, no)]).
Proof.
  intros H0.
  assert (S1 : exists f1 c1 f2 c2, CycleLoop w =
    (Ret tt, log (EPrim (RSet "loop-playlist" no) f2) (set_conn c2
              (log (EPrim (RSet "loop-file" yes) f1) (set_conn c1 (set_loop "loop-file" w)))))).
  { unfold_ops. rewrite H0. cbn [bool_decide decide_rel]. rewrite bool_decide_eq_true_2 by done.
    do 2 run_prim. by eexists _, _, _, _. }
  destruct S1 as (f1 & c1 & f2 & c2 & E1). rewrite E1. cbn [fst snd].
  set (w1 := log _ _) in *.
  assert (S2 : exists f1 c1 f2 c2, CycleLoop w1 =
    (Ret tt, log (EPrim (RSet "loop-playlist" yes) f2) (set_conn c2
              (log (EPrim (RSet "loop-file" no) f1) (set_conn c1 (set_loop "loop-playlist" w1)))))).
  { unfold_ops. subst w1. cbn [loop log set_conn set_loop].
    rewrite bool_decide_eq_false_2 by done. rewrite bool_decide_eq_true_2 by done.
    do 2 run_prim. by eexists _, _, _, _. }
  destruct S2 as (g1 & d1 & g2 & d2 & E2). rewrite E2. cbn [fst snd].
  set (w2 := log _ (set_conn d2 _)) in *.
  assert (S3 : exists f1 c1 f2 c2, CycleLoop w2 =
    (Ret tt, log (EPrim (RSet "loop-playlist" no) f2) (set_conn c2
              (log (EPrim (RSet "loop-file" no) f1) (set_conn c1 (set_loop "" w2)))))).
  { unfold_ops. subst w2. cbn [loop log set_conn set_loop].
    rewrite !(bool_decide_eq_false_2 ("loop-playlist" = _)) by done.
    rewrite bool_decide_eq_true_2 by done.
    do 2 run_prim. by eexists _, _, _, _. }
  destruct S3 as (h1 & e1 & h2 & e2 & E3). rewrite E3. cbn [fst snd].
  split; [done|]. split; [done|].
  split; [erewrite since_app by (subst w1; since_done); reflexivity|].
  split; [erewrite since_app by (subst w2; since_done); reflexivity|].
  split; [erewrite since_app by since_done; reflexivity|].
  intros u. unfold_ops.
  repeat case_bool_decide.
  - right. do 2 run_prim. exists yes, no. split; [|set_solver].
    erewrite since_app by since_done; reflexivity.
  - right. do 2 run_prim. exists no, yes. split; [|set_solver].
    erewrite since_app by since_done; reflexivity.
  - right. do 2 run_prim. exists no, no. split; [|set_solver].
    erewrite since_app by since_done; reflexivity.
  - left. cbn. unfold since. by rewrite drop_all.
Qed.

(** ** CyclePaused *)

Lemma IsEOF_world out w w1 :
  IsEOF w = (out, w1) ->
  exists fwd c, w1 = log (EPrim (RGet "eof-reached") fwd) (set_conn c w).
Proof.
  unfold IsEOF, bind, ret, as_bool, panic. run_prim. intros H. exists fwd, c.
  destruct (is_err err); [by inversion H|]. by destruct v; inversion H.
Qed.

Lemma IsPaused_world out w w1 :
  IsPaused w = (out, w1) ->
  exists fwd c, w1 = log (EPrim (RGet "pause") fwd) (set_conn c w).
Proof.
  unfold IsPaused, bind, ret, as_bool, panic. run_prim. intros H. exists fwd, c.
  destruct (is_err err); [by inversion H|]. by destruct v; inversion H.
Qed.

Ltac no_seek Hin :=
  repeat (apply elem_of_cons in Hin as [Hin|Hin]; [discriminate Hin|]);
  by apply elem_of_nil in Hin.

(** What [CyclePaused] issues, in every case. *)
Lemma CyclePaused_issued w :
  issued (since w (CyclePaused w).2) = cycle_paused_requests w /\
  (toggle_pause ∈ cycle_paused_requests w -> (CyclePaused w).1 = Ret tt).
Proof.
  unfold CyclePaused, cycle_paused_requests, bind, ret.
  destruct (IsEOF w) as [[[]|msg|] w1] eqn:H1;
    destruct (IsEOF_world _ _ _ H1) as (f1 & c1 & ->).
  - destruct (IsPaused _) as [[[]|msg|] w2] eqn:H2;
      destruct (IsPaused_world _ _ _ H2) as (f2 & c2 & ->);
      repeat run_prim; cbn [fst snd];
      (split; [erewrite since_app by since_done; reflexivity|]); try done.
    + intros Hin. no_seek Hin.
    + intros Hin. no_seek Hin.
  - run_prim. cbn [fst snd]. split; [erewrite since_app by since_done; reflexivity|done].
  - cbn [fst snd]. split; [erewrite since_app by since_done; reflexivity|].
    intros Hin. no_seek Hin.
  - cbn [fst snd]. split; [erewrite since_app by since_done; reflexivity|].
    intros Hin. no_seek Hin.
Qed.

(** C6: [CyclePaused] issues the seek to the start of the file, and then
    the pause toggle, when [IsEOF] and [IsPaused] both return true; when
    [IsEOF] returns false (and [IsPaused] is then not asked) or [IsPaused]
    returns false, it issues the toggle alone.  It issues the seek in no
    other case. *)
Theorem CyclePaused_rewinds_at_paused_eof w :
  (forall w1 w2, IsEOF w = (Ret true, w1) -> IsPaused w1 = (Ret true, w2) ->
     (CyclePaused w).1 = Ret tt /\
     issued (since w (CyclePaused w).2) =
       [RGet "eof-reached"; RGet "pause"; seek_to_start; toggle_pause]) /\
  (forall w1 w2, IsEOF w = (Ret true, w1) -> IsPaused w1 = (Ret false, w2) ->
     (CyclePaused w).1 = Ret tt /\
     issued (since w (CyclePaused w).2) = [RGet "eof-reached"; RGet "pause"; toggle_pause]) /\
  (forall w1, IsEOF w = (Ret false, w1) ->
     (CyclePaused w).1 = Ret tt /\
     issued (since w (CyclePaused w).2) = [RGet "eof-reached"; toggle_pause]) /\
  (seek_to_start ∈ issued (since w (CyclePaused w).2) ->
     exists w1 w2, IsEOF w = (Ret true, w1) /\ IsPaused w1 = (Ret true, w2)).
Proof.
  destruct (CyclePaused_issued w) as [-> Hret]. revert Hret.
  unfold cycle_paused_requests.
  destruct (IsEOF w) as [[[]|msg|] w1] eqn:H1;
    [destruct (IsPaused w1) as [[[]|msg|] w2] eqn:H2|..]; intros Hret;
    (split; [intros ? ? Ha Hb | split; [intros ? ? Ha Hb | split; [intros ? Ha | intros Hin]]]);
    try (simplify_eq; fail);
    try (injection Ha as <-; rewrite H2 in Hb; discriminate Hb);
    try (split; [apply Hret; set_solver|reflexivity]);
    first [ by eexists _, _ | no_seek Hin ].
Qed.

(** ** Loads and mutators *)

(** The registration of a title always returns. *)
Lemma addToMonitor_spec name w :
  addToMonitor name w =
    (Ret tt,
     match chan_poll 0 (mpvInfoChan w) with
     | Some (id, _, ch) => set_monitorMap (<[id := name]> (monitorMap w)) (set_mpvInfoChan ch w)
     | None => w
     end).
Proof.
  unfold addToMonitor, bind, gets, modify, ret.
  by destruct (chan_poll 0 (mpvInfoChan w)) as [[[id ok] ch]|].
Qed.






(** C9: when [LoadPlaylist] is called with replace set and its call
    fails, the monitor map is empty afterwards; the map was cleared before
    the call was issued and nothing is restored. *)
Theorem LoadPlaylist_replace_failure_clears plpath w e :
  (LoadPlaylist plpath true w).1 = Ret (Some e) ->
  monitorMap (LoadPlaylist plpath true w).2 = ∅ /\
  exists fwd,
    since w (LoadPlaylist plpath true w).2 =
      [EClearMonitor; EPrim (RCall (loadlist_args plpath true)) fwd].
Proof.
  unfold LoadPlaylist, bind, ret, clearMonitor, modify. run_prim.
  destruct (is_err err).
  - intros _. split; [done|]. exists fwd.
    erewrite since_app by since_done; reflexivity.
  - by rewrite addToMonitor_spec.
Qed.

(** ** The monitor queues *)

Lemma start_file_iter f w :
  eventListener_iter (Some (start_file f)) w =
    match chan_send (float_to_int T f) (mpvInfoChan w) with
    | Ret ch => (Ret true, set_mpvInfoChan ch w)
    | Panic msg => (Panic msg, w)
    | Blocked => (Blocked, w)
    end.
Proof.
  unfold eventListener_iter, start_file, extra. cbn [Name ExtraData].
  rewrite bool_decide_eq_true_2 by done.
  rewrite map_size_singleton, bool_decide_eq_true_2 by lia.
  rewrite lookup_singleton_eq.
  unfold bind, send_mpvInfoChan. cbn [default id as_float64 ret].
  by destruct (chan_send _ _).
Qed.

Lemma end_file_iter f reason w :
  reason <> "" ->
  eventListener_iter (Some (end_file f reason)) w =
    match chan_send (float_to_int T f) (mpvErrorChan w) with
    | Ret ch => (Ret true, set_mpvErrorChan ch w)
    | Panic msg => (Panic msg, w)
    | Blocked => (Blocked, w)
    end.
Proof.
  intros Hr. unfold eventListener_iter, end_file, extra. cbn [Name ExtraData].
  rewrite bool_decide_eq_false_2 by done. rewrite bool_decide_eq_true_2 by done.
  rewrite map_size_insert_None by (by apply lookup_singleton_ne).
  rewrite bool_decide_eq_true_2 by lia.
  rewrite lookup_insert_eq, lookup_insert_ne, lookup_singleton_eq by done.
  unfold bind, send_mpvErrorChan.
  cbn [default id is_nil negb andb as_string as_float64 ret].
  rewrite bool_decide_eq_false_2 by done. cbn [negb as_float64 ret].
  by destruct (chan_send _ _).
Qed.



(** ** What a run keeps *)

Section Keeps.

Context (R : relation (World T)) `{!PreOrder R}.

Lemma keeps_ret {A} (a : A) : keeps R (ret a).
Proof. intros w. reflexivity. Qed.

Lemma keeps_panic {A} msg : keeps R (@panic T A msg).
Proof. intros w. reflexivity. Qed.

Lemma keeps_gets {A} (f : World T -> A) : keeps R (gets f).
Proof. intros w. reflexivity. Qed.

Lemma keeps_modify f : (forall w, R w (f w)) -> keeps R (modify f).
Proof. intros H w. apply H. Qed.

Lemma keeps_bind {A B} (m : M T A) (k : A -> M T B) :
  keeps R m -> (forall a, keeps R (k a)) -> keeps R (bind m k).
Proof.
  intros Hm Hk w. unfold bind. specialize (Hm w).
  destruct (m w) as [[a|msg|] w1]; cbn [snd] in *; [|done..].
  etrans; [exact Hm|]. apply Hk.
Qed.

Lemma keeps_Call args : prim_frame R -> keeps R (Call args).
Proof.
  intros H w. unfold Call, bind, IsClosed, gets, modify, ret.
  destruct (conn_IsClosed T (conn w)) eqn:Hc.
  - cbn [snd]. replace w with (set_conn (conn w) w) at 2 by (by destruct w). by apply H.
  - destruct (conn_Call T args (conn w)) as [[v err] c]. cbn [snd]. apply H. congruence.
Qed.

Lemma keeps_Get prop : prim_frame R -> keeps R (Get prop).
Proof.
  intros H w. unfold Get, bind, IsClosed, gets, modify, ret.
  destruct (conn_IsClosed T (conn w)) eqn:Hc.
  - cbn [snd]. replace w with (set_conn (conn w) w) at 2 by (by destruct w). by apply H.
  - destruct (conn_Get T prop (conn w)) as [[v err] c]. cbn [snd]. apply H. congruence.
Qed.

Lemma keeps_Set prop v : prim_frame R -> keeps R (Set_ prop v).
Proof.
  intros H w. unfold Set_, bind, IsClosed, gets, modify, ret.
  destruct (conn_IsClosed T (conn w)) eqn:Hc.
  - cbn [snd]. replace w with (set_conn (conn w) w) at 2 by (by destruct w). by apply H.
  - destruct (conn_Set T prop v (conn w)) as [err c]. cbn [snd]. apply H. congruence.
Qed.

End Keeps.

#[local] Instance steady_preorder : PreOrder (steady T).
Proof.
  split.
  - intros w. by split.
  - intros w1 w2 w3 [H1 H1'] [H2 H2']. split; [congruence|auto].
Qed.

#[local] Instance shrinks_preorder : PreOrder (shrinks T).
Proof.
  split.
  - intros w. by unfold shrinks.
  - intros w1 w2 w3 H1 H2. unfold shrinks in *. by etrans.
Qed.



Ltac leaf :=
  intros w;
  cbv [send_mpvInfoChan send_mpvErrorChan offer_MPVErrors close_MPVErrors
       close_mpvInfoChan close_mpvErrorChan receive_MPVErrors chan_send chan_close
       steady shrinks modify];
  repeat match goal with
    | |- context [if ?b then _ else _] => destruct b eqn:?
    | |- context [match ?x with O => _ | S _ => _ end] => destruct x eqn:?
    end;
  cbn; try done; try reflexivity.


Lemma steady_offer_MPVErrors title : keeps (steady T) (offer_MPVErrors title).
Proof. leaf. Qed.

Lemma shrinks_offer_MPVErrors title : keeps (shrinks T) (offer_MPVErrors title).
Proof. leaf. Qed.

Ltac unfold_run_op :=
  cbv [run_op MPVStop LoadFile LoadPlaylist IsPaused IsShuffle IsEOF IsIdle MediaType
       LoopType TimePosition Duration PlaylistData PlaylistCount PlaylistPos
       PlaylistTitle SetPlaylistPos PlaylistDelete PlaylistMove PlaylistClear
       PlaylistPlayLatest CyclePaused CycleShuffle CycleLoop Play Stop SeekForward
       SeekBackward Next Prev clearMonitor as_bool as_float64 as_string IsClosed].

Ltac keeps_run tac :=
  repeat first
    [ match goal with |- PreOrder _ => tc_solve end
    | apply keeps_ret
    | apply keeps_panic
    | apply keeps_gets
    | apply keeps_Call; [tc_solve | tac]
    | apply keeps_Get; [tc_solve | tac]
    | apply keeps_Set; [tc_solve | tac]
    | apply keeps_modify; intros ?; solve [tac]
    | tac
    | apply keeps_bind; [tc_solve | | intros ?]
    | match goal with
      | |- keeps _ (match ?x with _ => _ end) => destruct x
      | |- keeps _ (let (_, _) := ?x in _) => destruct x
      end ].




(** ** Reachable states *)














(** ** Loads matched with their start events *)

Lemma run_app acts1 acts2 w :
  run (acts1 ++ acts2) w =
    match run acts1 w with
    | (Ret _, w1) => run acts2 w1
    | other => other
    end.
Proof.
  revert w. induction acts1 as [|a acts1 IH]; intros w; [done|].
  cbn [run app]. unfold bind. destruct (step a w) as [[[]|msg|] w1]; [apply IH|done..].
Qed.

Lemma Call_accepted args w :
  accepting T -> conn_IsClosed T (conn w) = false ->
  exists v c, Call args w = (Ret (v, None), log (EPrim (RCall args) true) (set_conn c w)) /\
              conn_IsClosed T c = false.
Proof.
  intros Ha Ho. unfold Call, bind, IsClosed, gets. rewrite Ho.
  destruct (Ha args (conn w) Ho) as (v & c & -> & Hc). by exists v, c.
Qed.

(** A load on a player that takes every command, with an identifier
    pending. *)
Lemma load_accepted (l : Load) id ids cap w :
  accepting T ->
  conn_IsClosed T (conn w) = false ->
  mpvInfoChan w = mkChan (id :: ids) cap false ->
  exists w',
    run_op (load_op l) w = (Ret (RError None), w') /\
    conn_IsClosed T (conn w') = false /\
    mpvInfoChan w' = mkChan ids cap false /\
    mpvErrorChan w' = mpvErrorChan w /\ MPVErrors w' = MPVErrors w /\
    monitorMap w' = <[id := load_title l]> (if replaces l then ∅ else monitorMap w).
Proof.
  intros Ha Ho Hq.
  destruct l as [title duration file more|plpath [|]]; cbn [load_op run_op load_title replaces].
  - unfold LoadFile, bind, ret.
    destruct (Call_accepted
      [VString "loadfile"; VString file; VString "append-play";
       VString (load_options T title duration (file :: more))] w Ha Ho) as (v & c & -> & Hc).
    cbn [is_err]. rewrite addToMonitor_spec. eexists. split; [reflexivity|].
    cbn. rewrite Hq. by cbn.
  - unfold LoadPlaylist, clearMonitor, bind, modify, ret.
    destruct (Call_accepted [VString "loadlist"; VString plpath; VString "replace"]
      (log EClearMonitor (set_monitorMap ∅ w)) Ha Ho) as (v & c & -> & Hc).
    cbn [is_err]. rewrite addToMonitor_spec. eexists. split; [reflexivity|].
    cbn. rewrite Hq. by cbn.
  - unfold LoadPlaylist, bind, ret.
    destruct (Call_accepted [VString "loadlist"; VString plpath; VString "append-play"]
      w Ha Ho) as (v & c & -> & Hc).
    cbn [is_err]. rewrite addToMonitor_spec. eexists. split; [reflexivity|].
    cbn. rewrite Hq. by cbn.
Qed.

Lemma started_round f l w :
  accepting T -> idle w ->
  exists w', run (round_actions (Started f l)) w = (Ret tt, w') /\ idle w' /\
    monitorMap w' =
      <[float_to_int T f := load_title l]> (if replaces l then ∅ else monitorMap w) /\
    err_delivered (MPVErrors w') = err_delivered (MPVErrors w).
Proof.
  intros Ha (Ho & [n Hi] & He & Hm).
  cbn [round_actions run step]. unfold bind at 1 2. rewrite start_file_iter, Hi.
  cbn [chan_send ch_closed ch_buf ch_cap length Nat.ltb Nat.leb app].
  set (w1 := set_mpvInfoChan _ w).
  destruct (load_accepted l (float_to_int T f) [] (S n) w1 Ha Ho eq_refl)
    as (w2 & E & Ho2 & Hq2 & He2 & Hm2 & Hmap).
  exists w2. unfold ret, bind. rewrite E.
  split; [done|]. split; [|split; [exact Hmap|by rewrite Hm2]].
  split; [done|]. split; [by exists n|]. split; [by rewrite He2|by rewrite Hm2].
Qed.

Lemma failed_round f reason watched w :
  reason <> "" -> idle w ->
  exists w', run (round_actions (Failed f reason watched)) w = (Ret tt, w') /\ idle w' /\
    monitorMap w' = delete (float_to_int T f) (monitorMap w) /\
    err_delivered (MPVErrors w') =
      (if watched
       then err_delivered (MPVErrors w) ++ [default "" (monitorMap w !! float_to_int T f)]
       else err_delivered (MPVErrors w))%list.
Proof.
  intros Hr (Ho & Hi & [n He] & [out Hm]).
  assert (Hgo : forall u, conn u = conn w -> mpvInfoChan u = mpvInfoChan w ->
    mpvErrorChan u = mpvErrorChan w -> monitorMap u = monitorMap w ->
    forall k, MPVErrors u = mkErrChan k out false -> (k <= 1)%nat ->
    exists w', run [AEvent (Some (end_file f reason)); AMonitor] u = (Ret tt, w') /\ idle w' /\
      monitorMap w' = delete (float_to_int T f) (monitorMap w) /\
      err_delivered (MPVErrors w') =
        match k with
        | O => out
        | S _ => (out ++ [default "" (monitorMap w !! float_to_int T f)])%list
        end).
  { intros u Hc Hui Hue Hum k Huk Hk.
    cbn [run step]. unfold bind at 1 2. rewrite end_file_iter, Hue, He by done.
    cbn [chan_send ch_closed ch_buf ch_cap length Nat.ltb Nat.leb app].
    unfold monitorStart_iter, bind, gets, modify, ret, offer_MPVErrors.
    cbn [mpvErrorChan set_mpvErrorChan set_monitorMap chan_poll ch_buf ch_cap ch_closed
         MPVErrors monitorMap negb]. rewrite Huk, Hum. cbn [err_closed err_receivers].
    destruct k as [|[|k]]; [| |lia]; eexists; (split; [reflexivity|]);
      unfold idle; cbn; rewrite ?Huk, ?Hc, ?Hui; cbn; repeat split; eauto. }
  destruct watched; cbn [round_actions app].
  - change (AReceive :: ?l) with ([AReceive] ++ l)%list. rewrite run_app.
    assert (E0 : run [AReceive] w = (Ret tt, set_MPVErrors (mkErrChan 1 out false) w)).
    { cbn [run step]. unfold bind, ret, receive_MPVErrors, modify. by rewrite Hm. }
    rewrite E0.
    destruct (Hgo (set_MPVErrors (mkErrChan 1 out false) w)) with (k := 1%nat)
      as (w' & E & H); [reflexivity..|lia|].
    rewrite E, Hm. clear Hgo E0. exists w'. split; [reflexivity|exact H].
  - destruct (Hgo w) with (k := O) as (w' & E & H); [reflexivity..|exact Hm|lia|].
    rewrite E, Hm. clear Hgo. exists w'. split; [reflexivity|exact H].
Qed.

Lemma expected_tracked (rs : list (Round T)) m out id :
  (expected rs m out).1 !! id = tracked id rs (m !! id).
Proof.
  revert m out. induction rs as [|[f l|f reason watched] rs IH]; intros m out; [done|..];
    cbn [expected tracked]; rewrite IH.
  - rewrite lookup_insert. destruct (decide (float_to_int T f = id)); [done|].
    destruct (replaces l); [by rewrite lookup_empty|done].
  - by rewrite lookup_delete.
Qed.

(** C2 (as amended): start from an idle state (the connection open,
    both queues open and empty, no consumer waiting on [MPVErrors]) on a
    player that takes every command, and take any sequence of rounds in
    which every load ([LoadFile] with a file, [LoadPlaylist] in either
    mode) registers its title while the identifier of its start event is
    pending in the info queue, and every end event with an error is
    followed by a turn of the monitor task.  All the moves return, and
    afterwards the monitor map holds, against each identifier, the title
    of the load last started under it, unless an end event with a
    non-empty error, or a replacing [LoadPlaylist], which clears the map
    before its own title is registered, came after.  At such an end event
    the monitor task removes the identifier and offers its title (the
    empty string when the identifier is not in the map) on [MPVErrors],
    where it is delivered if a consumer is waiting. *)
Theorem monitor_tracks_started_loads rs w :
  accepting T -> idle w -> Forall valid_round rs ->
  exists w',
    run (concat (map round_actions rs)) w = (Ret tt, w') /\ idle w' /\
    (monitorMap w', err_delivered (MPVErrors w')) =
      expected rs (monitorMap w) (err_delivered (MPVErrors w)) /\
    (forall id, monitorMap w' !! id = tracked id rs (monitorMap w !! id)).
Proof.
  intros Ha Hidle Hv.
  cut (exists w',
    run (concat (map round_actions rs)) w = (Ret tt, w') /\ idle w' /\
    (monitorMap w', err_delivered (MPVErrors w')) =
      expected rs (monitorMap w) (err_delivered (MPVErrors w))).
  { intros (w' & Hrun & Hid & Hex). exists w'.
    split; [done|]. split; [done|]. split; [done|]. intros id.
    rewrite <- expected_tracked with (out := err_delivered (MPVErrors w)).
    by rewrite <- Hex. }
  revert w Hidle.
  induction Hv as [|r rs Hr _ IH]; intros w Hidle.
  - by exists w.
  - cbn [map concat expected]. rewrite run_app.
    destruct r as [f l|f reason watched].
    + destruct (started_round f l w Ha Hidle) as (w1 & -> & H1 & Hm & Hd).
      destruct (IH w1 H1) as (w' & E & H' & Hx).
      exists w'. by rewrite E, Hx, Hm, Hd.
    + destruct (failed_round f reason watched w Hr Hidle) as (w1 & -> & H1 & Hm & Hd).
      destruct (IH w1 H1) as (w' & E & H' & Hx).
      exists w'. rewrite E, Hx, Hm, Hd. by destruct watched.
Qed.


(** ** Stopping, loading and clearing *)

Lemma MPVStop_spec rm w :
  exists c,
    MPVStop rm w =
      (Ret tt,
       if conn_IsClosed T (conn w) then w
       else (if rm then log (ERemove (sockPath T)) else id)
              (log (EPrim (RCall [VString "quit"]) true) (set_conn c w))).
Proof.
  unfold MPVStop, Call, bind, IsClosed, gets, modify, ret.
  destruct (conn_IsClosed T (conn w)) eqn:Hc; [by exists (conn w)|].
  rewrite Hc. destruct (conn_Call T _ (conn w)) as [[v err] c]. exists c. by destruct rm.
Qed.

(** X1: [MPVStop] returns at once on a closed connection, without even
    entering [Call].  On an open connection it sends the quit command and
    then, when [rm] is set, removes the socket file, whatever the player
    answers to the command. *)
Theorem MPVStop_quits_then_removes rm w :
  (MPVStop rm w).1 = Ret tt /\
  since w (MPVStop rm w).2 =
    (if conn_IsClosed T (conn w) then []
     else EPrim (RCall [VString "quit"]) true ::
          (if rm then [ERemove (sockPath T)] else [])).
Proof.
  unfold MPVStop, Call, bind, IsClosed, gets, modify, ret.
  destruct (conn_IsClosed T (conn w)) eqn:Hc.
  - split; [done|]. unfold since. cbn [snd]. apply drop_all.
  - rewrite Hc. destruct (conn_Call T _ (conn w)) as [[v err] c].
    destruct rm; cbn [negb fst snd]; (split; [done|]);
      erewrite since_app by since_done; reflexivity.
Qed.

(** X2: [LoadFile] needs a file: with none it panics on [files[0]]
    before anything is sent.  It reads two files at most: with three or
    more it does exactly what it does with the first alone, whose
    command carries no audio file, and only with exactly two does the
    command carry the second as audio file. *)
Theorem LoadFile_file_arguments title duration w :
  LoadFile title duration [] w = (Panic "index out of range", w) /\
  (forall f0 f1 f2 rest,
     LoadFile title duration (f0 :: f1 :: f2 :: rest) w = LoadFile title duration [f0] w) /\
  (forall f0,
     issued (since w (LoadFile title duration [f0] w).2) =
       [RCall [VString "loadfile"; VString f0; VString "append-play";
               VString ("title='" ++ title ++ "',length=" ++ strconv_Itoa T duration)]]) /\
  (forall f0 f1,
     issued (since w (LoadFile title duration [f0; f1] w).2) =
       [RCall [VString "loadfile"; VString f0; VString "append-play";
               VString (("title='" ++ title ++ "',length=" ++ strconv_Itoa T duration)
                        ++ ",audio-file=" ++ f1)]]).
Proof.
  split; [reflexivity|]. split; [reflexivity|].
  split; [intros f0|intros f0 f1]; unfold LoadFile, load_options, bind, ret; run_prim;
    (destruct (is_err err); cbn [fst snd];
     [ erewrite since_app by since_done; reflexivity
     | rewrite addToMonitor_spec; cbn [snd];
       destruct (chan_poll _ _) as [[[id ok] ch]|];
         erewrite since_app by since_done; reflexivity ]).
Qed.

(** X3: [PlaylistClear] empties the monitor map in every case, also when
    the connection is closed and the command never reaches the player;
    the command is issued first. *)
Theorem PlaylistClear_always_clears w :
  (PlaylistClear w).1 = Ret tt /\
  monitorMap (PlaylistClear w).2 = ∅ /\
  since w (PlaylistClear w).2 =
    [EPrim (RCall [VString "playlist-clear"]) (negb (conn_IsClosed T (conn w)));
     EClearMonitor].
Proof.
  unfold PlaylistClear, clearMonitor, Call, bind, IsClosed, gets, modify, ret.
  destruct (conn_IsClosed T (conn w)) eqn:Hc; cbn [negb].
  - split; [done|]. split; [done|]. erewrite since_app by since_done; reflexivity.
  - destruct (conn_Call T _ (conn w)) as [[v err] c].
    split; [done|]. split; [done|]. erewrite since_app by since_done; reflexivity.
Qed.

(** X4: [PlaylistPlayLatest] asks for the playlist count, sets the
    playlist position to the count less one and unpauses.  When the count
    cannot be read (the get errors, or the connection is closed) the
    position it sets is -1.  A count that is not a number panics the
    type assertion after the one get. *)
Theorem PlaylistPlayLatest_position w :
  let plays n :=
    (PlaylistPlayLatest w).1 = Ret tt /\
    issued (since w (PlaylistPlayLatest w).2) =
      [RGet "playlist-count"; RSet "playlist-pos" (VInt n); RSet "pause" (VString "no")] in
  match (Get "playlist-count" w).1 with
  | Ret (VFloat f, None) => plays (wrap_int (float_to_int T f - 1))
  | Ret (_, Some _) => plays (-1)
  | _ =>
      (PlaylistPlayLatest w).1 = Panic "interface conversion: not float64" /\
      issued (since w (PlaylistPlayLatest w).2) = [RGet "playlist-count"]
  end.
Proof.
  unfold PlaylistPlayLatest, PlaylistCount, Play, as_float64, bind, panic, ret.
  run_prim. cbn [fst snd].
  destruct err as [e|]; cbn [is_err]; destruct v; cbn [fst snd];
    repeat (run_prim; cbn [fst snd]);
    (split; [done|]); erewrite since_app by since_done; reflexivity.
Qed.

(** X5: a load that fails leaves the monitor alone: when [LoadFile], or
    [LoadPlaylist] in append mode, returns an error, the monitor map, both
    queues, [MPVErrors] and [loop] are what they were; no pending
    identifier is used up. *)
Theorem failed_load_changes_nothing w e :
  (forall title duration files,
     (LoadFile title duration files w).1 = Ret (Some e) ->
     same_monitor w (LoadFile title duration files w).2) /\
  (forall plpath,
     (LoadPlaylist plpath false w).1 = Ret (Some e) ->
     same_monitor w (LoadPlaylist plpath false w).2).
Proof.
  split.
  - intros title duration files. unfold LoadFile, bind, ret.
    destruct files as [|f0 fs]; [discriminate|]. run_prim.
    destruct (is_err err); [done|]. by rewrite addToMonitor_spec.
  - intros plpath. unfold LoadPlaylist, bind, ret. run_prim.
    destruct (is_err err); [done|]. by rewrite addToMonitor_spec.
Qed.

(** ** LoopType *)

Lemma eq_string_spec (v : Value (float64 T)) lit : eq_string v lit = true <-> v = VString lit.
Proof.
  destruct v; cbn; try (split; [discriminate|intros [=]]).
  rewrite bool_decide_eq_true. split; [by intros ->|by intros [= ->]].
Qed.

Lemma means_loop_spec (v : Value (float64 T)) :
  eq_string v "yes" || eq_string v "inf" = true <-> means_loop v.
Proof. unfold means_loop. by rewrite orb_true_iff, !eq_string_spec. Qed.

(** X6: [LoopType] does not read its argument.  It never panics, and it
    answers "R-F", "R-P" or the empty string.  When one of its two
    queries fails the answer is the empty string, so a loop on the file
    goes unreported when the query about the playlist fails.  When both
    queries succeed the answer is "R-F" if the file is on loop ("yes" or
    "inf"), else "R-P" if the playlist is, else the empty string: the
    file loop takes precedence. *)
Theorem LoopType_needs_both_answers file w :
  LoopType file w = LoopType (negb file) w /\
  (exists s, (LoopType file w).1 = Ret s /\ s ∈ [""; "R-F"; "R-P"]) /\
  (forall s, (LoopType file w).1 = Ret s -> s <> "" ->
     exists lf lp w1 w2,
       Call ask_loop_file w = (Ret (lf, None), w1) /\
       Call ask_loop_playlist w1 = (Ret (lp, None), w2) /\
       (s = "R-F" <-> means_loop lf) /\
       (s = "R-P" <-> ~ means_loop lf /\ means_loop lp)) /\
  (forall lf e w1,
     Call ask_loop_file w = (Ret (lf, Some e), w1) -> LoopType file w = (Ret "", w1)) /\
  (forall lf w1 lp e w2,
     Call ask_loop_file w = (Ret (lf, None), w1) ->
     Call ask_loop_playlist w1 = (Ret (lp, Some e), w2) ->
     LoopType file w = (Ret "", w2)) /\
  (forall lf w1 lp w2,
     Call ask_loop_file w = (Ret (lf, None), w1) ->
     Call ask_loop_playlist w1 = (Ret (lp, None), w2) ->
     (means_loop lf -> LoopType file w = (Ret "R-F", w2)) /\
     (~ means_loop lf -> means_loop lp -> LoopType file w = (Ret "R-P", w2)) /\
     (~ means_loop lf -> ~ means_loop lp -> LoopType file w = (Ret "", w2))).
Proof.
  split; [reflexivity|].
  assert (Hboth : forall lf w1 lp w2,
    Call ask_loop_file w = (Ret (lf, None), w1) ->
    Call ask_loop_playlist w1 = (Ret (lp, None), w2) ->
    LoopType file w =
      (Ret (if eq_string lf "yes" || eq_string lf "inf" then "R-F"
            else if eq_string lp "yes" || eq_string lp "inf" then "R-P" else ""), w2)).
  { intros lf w1 lp w2 E1 E2. unfold LoopType, bind, ret.
    unfold ask_loop_file in E1. rewrite E1. cbn [is_err].
    unfold ask_loop_playlist in E2. rewrite E2. cbn [is_err].
    destruct (eq_string lf "yes" || eq_string lf "inf"); [done|].
    by destruct (eq_string lp "yes" || eq_string lp "inf"). }
  assert (Hfirst : forall lf e w1,
    Call ask_loop_file w = (Ret (lf, Some e), w1) -> LoopType file w = (Ret "", w1)).
  { intros lf e w1 E1. unfold LoopType, bind, ret. unfold ask_loop_file in E1. by rewrite E1. }
  assert (Hsecond : forall lf w1 lp e w2,
    Call ask_loop_file w = (Ret (lf, None), w1) ->
    Call ask_loop_playlist w1 = (Ret (lp, Some e), w2) ->
    LoopType file w = (Ret "", w2)).
  { intros lf w1 lp e w2 E1 E2. unfold LoopType, bind, ret.
    unfold ask_loop_file in E1. rewrite E1. cbn [is_err].
    unfold ask_loop_playlist in E2. by rewrite E2. }
  assert (Hcases : forall lf w1 lp w2,
    Call ask_loop_file w = (Ret (lf, None), w1) ->
    Call ask_loop_playlist w1 = (Ret (lp, None), w2) ->
    (means_loop lf -> LoopType file w = (Ret "R-F", w2)) /\
    (~ means_loop lf -> means_loop lp -> LoopType file w = (Ret "R-P", w2)) /\
    (~ means_loop lf -> ~ means_loop lp -> LoopType file w = (Ret "", w2))).
  { intros lf' w1' lp' w2' E1' E2'. rewrite (Hboth _ _ _ _ E1' E2').
    pose proof (means_loop_spec lf') as Hlf. pose proof (means_loop_spec lp') as Hlp.
    destruct (eq_string lf' "yes" || eq_string lf' "inf");
      [|destruct (eq_string lp' "yes" || eq_string lp' "inf")].
    - split; [done|]. split; intros Hn; destruct Hn; tauto.
    - split; [intros Hm; apply Hlf in Hm; discriminate Hm|].
      split; [done|]. intros _ Hn. destruct Hn. tauto.
    - split; [intros Hm; apply Hlf in Hm; discriminate Hm|].
      split; [|done]. intros _ Hm. apply Hlp in Hm. discriminate Hm. }
  match goal with
  | |- ?A /\ ?B /\ _ => enough (H23 : A /\ B)
  end.
  { destruct H23 as [H2 H3]. split; [exact H2|]. split; [exact H3|].
    split; [exact Hfirst|]. split; [exact Hsecond|exact Hcases]. }
  clear Hcases.
  destruct (Call_spec ask_loop_file w) as (lf & e1 & f1 & c1 & E1 & _).
  destruct e1 as [e1|].
  { rewrite (Hfirst _ _ _ E1). cbn [fst].
    split; [exists ""; split; [done|rewrite !elem_of_cons; auto]|].
    by intros s [= <-]. }
  destruct (Call_spec ask_loop_playlist
              (log (EPrim (RCall ask_loop_file) f1) (set_conn c1 w)))
    as (lp & e2 & f2 & c2 & E2 & _).
  destruct e2 as [e2|].
  { rewrite (Hsecond _ _ _ _ _ E1 E2). cbn [fst].
    split; [exists ""; split; [done|rewrite !elem_of_cons; auto]|].
    by intros s [= <-]. }
  rewrite (Hboth _ _ _ _ E1 E2). cbn [fst].
  pose proof (means_loop_spec lf) as Hlf. pose proof (means_loop_spec lp) as Hlp.
  split.
  - destruct (eq_string lf "yes" || eq_string lf "inf");
      [|destruct (eq_string lp "yes" || eq_string lp "inf")];
      eexists; (split; [reflexivity|rewrite !elem_of_cons; auto]).
  - intros s Hs Hne. exists lf, lp. eexists _, _. split; [exact E1|]. split; [exact E2|].
    destruct (eq_string lf "yes" || eq_string lf "inf");
      [|destruct (eq_string lp "yes" || eq_string lp "inf")]; injection Hs as <-.
    + split; [tauto|]. split; [done|]. intros [Hn _]. destruct Hn. tauto.
    + split.
      * split; [done|]. intros Hm. apply Hlf in Hm. discriminate Hm.
      * split; [|done]. intros _. split; [|tauto]. intros Hm. apply Hlf in Hm. discriminate Hm.
    + done.
Qed.

(** ** The monitor beyond single rounds *)

(** X7: titles are attached to identifiers in the order in which the
    identifiers arrived.  While the info queue is open, registering the
    titles [names] one after the other takes the pending identifiers
    oldest first, one for each title; titles beyond the pending
    identifiers are dropped, identifiers beyond the titles stay
    queued. *)
Theorem registrations_are_fifo names w :
  ch_closed (mpvInfoChan w) = false ->
  (register names w).1 = Ret tt /\
  monitorMap (register names w).2 =
    with_entries (monitorMap w) (zip (ch_buf (mpvInfoChan w)) names) /\
  ch_buf (mpvInfoChan (register names w).2) = drop (length names) (ch_buf (mpvInfoChan w)).
Proof.
  revert w. induction names as [|name names IH]; intros w Ho.
  - split; [done|]. split; [|done]. cbn [register ret snd]. by destruct (ch_buf _).
  - cbn [register]. unfold bind. rewrite addToMonitor_spec. unfold chan_poll.
    destruct (ch_buf (mpvInfoChan w)) as [|id ids] eqn:Hb.
    + rewrite Ho. destruct (IH w Ho) as (H1 & H2 & H3). rewrite Hb in H2, H3.
      split; [done|]. split; [by rewrite H2; destruct names|].
      rewrite H3. by destruct names.
    + set (w1 := set_monitorMap _ _).
      destruct (IH w1) as (H1 & H2 & H3); [by subst w1; cbn; rewrite Ho|].
      split; [done|]. by rewrite H2, H3.
Qed.

Lemma monitor_turn id rest w :
  ch_buf (mpvErrorChan w) = id :: rest -> err_closed (MPVErrors w) = false ->
  exists w1,
    step AMonitor w = (Ret tt, w1) /\
    monitorMap w1 = delete id (monitorMap w) /\
    mpvErrorChan w1 = mkChan rest (ch_cap (mpvErrorChan w)) (ch_closed (mpvErrorChan w)) /\
    err_closed (MPVErrors w1) = false /\
    err_receivers (MPVErrors w1) = pred (err_receivers (MPVErrors w)) /\
    err_delivered (MPVErrors w1) =
      (err_delivered (MPVErrors w) ++
       match err_receivers (MPVErrors w) with
       | O => []
       | S _ => [default "" (monitorMap w !! id)]
       end)%list.
Proof.
  intros Hb Hc.
  unfold step, monitorStart_iter, bind, gets, modify, ret, offer_MPVErrors, chan_poll.
  rewrite Hb. cbn [negb MPVErrors set_monitorMap set_mpvErrorChan]. rewrite Hc.
  destruct (err_receivers (MPVErrors w)) as [|n] eqn:Hr; eexists; (split; [reflexivity|]);
    cbn; rewrite ?Hc, ?Hr, ?app_nil_r; done.
Qed.

(** X8: the monitor task works the error queue off in order.  As long as
    [MPVErrors] is open, one turn for each pending identifier returns,
    leaves the error queue empty and the monitor map without the entries
    of these identifiers, and hands a title to each waiting consumer,
    one for each turn at most.  On the next turn the task is parked, or
    ends if the queue has been closed. *)
Theorem monitor_drains_error_queue w :
  err_closed (MPVErrors w) = false ->
  let ids := ch_buf (mpvErrorChan w) in
  let w' := (run (replicate (length ids) AMonitor) w).2 in
  (run (replicate (length ids) AMonitor) w).1 = Ret tt /\
  monitorMap w' = without (monitorMap w) ids /\
  ch_buf (mpvErrorChan w') = [] /\
  length (err_delivered (MPVErrors w')) =
    (length (err_delivered (MPVErrors w)) +
     min (err_receivers (MPVErrors w)) (length ids))%nat /\
  (monitorStart_iter w').1 = (if ch_closed (mpvErrorChan w) then Ret false else Blocked).
Proof.
  cbn zeta. remember (ch_buf (mpvErrorChan w)) as ids eqn:Hb. symmetry in Hb.
  revert w Hb. induction ids as [|id ids IH]; intros w Hb Hc.
  - cbn [length replicate run ret fst snd without foldl]. split; [done|]. split; [done|].
    split; [done|]. split; [lia|].
    unfold monitorStart_iter, bind, gets, chan_poll. rewrite Hb.
    by destruct (ch_closed (mpvErrorChan w)).
  - destruct (monitor_turn id ids w Hb Hc) as (w1 & E & Hm & Hq & Hc1 & Hr & Hd).
    cbn [length replicate].
    assert (Er : run (AMonitor :: replicate (length ids) AMonitor) w =
                 run (replicate (length ids) AMonitor) w1).
    { cbn [run]. unfold bind at 1. by rewrite E. }
    rewrite Er.
    destruct (IH w1) as (H1 & H2 & H3 & H4 & H5); [by rewrite Hq|done|].
    split; [done|]. split; [by rewrite H2, Hm|]. split; [done|].
    split.
    + rewrite H4, Hd, Hr, length_app.
      destruct (err_receivers (MPVErrors w)); cbn [length pred]; lia.
    + rewrite H5. by rewrite Hq.
Qed.

(** ** The event listener *)

(** X9: the event listener lets an event pass, with nothing changed,
    when it is neither a start, an end nor a shutdown; when it is a start
    or an end without extra data; and when it is an end whose error is
    missing, nil or the empty string, or whose entry identifier is
    missing or nil. *)
Theorem listener_ignores_other_events ev w :
  Name ev ∉ ["start-file"; "end-file"; "shutdown"] \/
  (Name ev <> "shutdown" /\ ExtraData ev = ∅) \/
  (Name ev = "end-file" /\
   (is_nil (extra ev "file_error") = true \/
    is_nil (extra ev "playlist_entry_id") = true \/
    extra ev "file_error" = VString "")) ->
  eventListener_iter (Some ev) w = (Ret true, w).
Proof.
  intros Hev. unfold eventListener_iter.
  destruct Hev as [Hn|[[Hn He]|[Hn He]]].
  - rewrite !bool_decide_eq_false_2; [done|intros E; apply Hn; rewrite E; set_solver..].
  - rewrite He, map_size_empty. rewrite (bool_decide_eq_false_2 (0 < 0)%nat) by lia.
    rewrite (bool_decide_eq_false_2 (Name ev = "shutdown")) by done.
    by repeat case_bool_decide.
  - rewrite bool_decide_eq_false_2 by (by rewrite Hn).
    rewrite bool_decide_eq_true_2 by done.
    case_bool_decide; [|done].
    destruct He as [He|[He|He]]; rewrite He; cbn [negb andb]; [done| |].
    + by rewrite andb_false_r.
    + cbn [is_nil negb andb]. destruct (is_nil (extra ev "playlist_entry_id")); [done|].
      cbn [negb as_string]. unfold bind, ret. by rewrite bool_decide_eq_true_2.
Qed.

(** X10: the event listener trusts the types of the extra data.  A start
    event with extra data whose entry identifier is missing or not a
    number panics the type assertion, and so does an end event whose
    error is not a string, or whose error is a non-empty string while the
    identifier is not a number; the queues are not touched. *)
Theorem listener_panics_on_ill_typed_event ev w :
  ExtraData ev <> ∅ ->
  (Name ev = "start-file" ->
   (forall f, extra ev "playlist_entry_id" <> VFloat f) ->
   eventListener_iter (Some ev) w = (Panic "interface conversion: not float64", w)) /\
  (Name ev = "end-file" ->
   is_nil (extra ev "file_error") = false ->
   is_nil (extra ev "playlist_entry_id") = false ->
   (forall s, extra ev "file_error" <> VString s) ->
   eventListener_iter (Some ev) w = (Panic "interface conversion: not string", w)) /\
  (Name ev = "end-file" ->
   forall s, extra ev "file_error" = VString s -> s <> "" ->
   is_nil (extra ev "playlist_entry_id") = false ->
   (forall f, extra ev "playlist_entry_id" <> VFloat f) ->
   eventListener_iter (Some ev) w = (Panic "interface conversion: not float64", w)).
Proof.
  intros Hne.
  assert (Hs : bool_decide (0 < size (ExtraData ev))%nat = true).
  { apply bool_decide_eq_true. destruct (decide (size (ExtraData ev) = 0%nat)) as [E|]; [|lia].
    by apply map_size_empty_inv in E. }
  unfold eventListener_iter. split; [|split].
  - intros -> Hf. rewrite bool_decide_eq_true_2 by done. rewrite Hs.
    unfold bind, as_float64, panic.
    destruct (extra ev "playlist_entry_id") as [| | |f|]; try done. by destruct (Hf f).
  - intros -> He Hv Hstr. rewrite bool_decide_eq_false_2 by done.
    rewrite bool_decide_eq_true_2 by done. rewrite Hs, He, Hv. cbn [negb andb].
    unfold bind, as_string, panic.
    destruct (extra ev "file_error") as [| | | |s]; try done. by destruct (Hstr s).
  - intros -> s He Hs' Hv Hf. rewrite bool_decide_eq_false_2 by done.
    rewrite bool_decide_eq_true_2 by done. rewrite Hs, He, Hv. cbn [is_nil negb andb].
    unfold bind, as_string, ret. rewrite bool_decide_eq_false_2 by done. cbn [negb].
    unfold as_float64, panic.
    destruct (extra ev "playlist_entry_id") as [| | |f|]; try done. by destruct (Hf f).
Qed.

Lemma shutdown_spec w w' :
  shutdown w = (Ret tt, w') ->
  err_closed (MPVErrors w) = false /\
  loop w' = loop w /\
  conn w' = conn_Close T (conn w) /\
  mpvInfoChan w' = mkChan (ch_buf (mpvInfoChan w)) (ch_cap (mpvInfoChan w)) true /\
  mpvErrorChan w' = mkChan (ch_buf (mpvErrorChan w)) (ch_cap (mpvErrorChan w)) true /\
  MPVErrors w' = mkErrChan 0 (err_delivered (MPVErrors w)) true /\
  monitorMap w' = monitorMap w.
Proof.
  unfold shutdown, bind, modify, close_MPVErrors, close_mpvInfoChan, close_mpvErrorChan,
    chan_close.
  cbn [MPVErrors mpvInfoChan mpvErrorChan set_conn set_MPVErrors set_mpvInfoChan].
  destruct (err_closed (MPVErrors w)) eqn:H1; [discriminate|].
  cbn [MPVErrors mpvInfoChan mpvErrorChan set_conn set_MPVErrors set_mpvInfoChan].
  destruct (ch_closed (mpvInfoChan w)) eqn:H2; [discriminate|].
  cbn [MPVErrors mpvInfoChan mpvErrorChan set_conn set_MPVErrors set_mpvInfoChan].
  destruct (ch_closed (mpvErrorChan w)) eqn:H3; [discriminate|].
  by intros [= <-].
Qed.

(** X11: what a shutdown leaves behind.  The connection has been handed
    to [Close], the three channels are closed with their pending
    identifiers still in them, and the monitor map is as it was.  A second
    shutdown panics on the closed channel.  The monitor task ends on its
    next turn if no error identifier is pending; if one is, the task takes
    it, drops its entry and panics on the send to the closed [MPVErrors].
    A title registered afterwards goes to the pending identifier, or to
    the identifier 0 when none is pending. *)
Theorem after_shutdown w w' :
  shutdown w = (Ret tt, w') ->
  (conn w' = conn_Close T (conn w) /\
   mpvInfoChan w' = mkChan (ch_buf (mpvInfoChan w)) (ch_cap (mpvInfoChan w)) true /\
   mpvErrorChan w' = mkChan (ch_buf (mpvErrorChan w)) (ch_cap (mpvErrorChan w)) true /\
   err_closed (MPVErrors w') = true /\
   monitorMap w' = monitorMap w) /\
  (shutdown w').1 = Panic "close of closed channel" /\
  match ch_buf (mpvErrorChan w) with
  | [] => monitorStart_iter w' = (Ret false, w')
  | id :: _ =>
      (monitorStart_iter w').1 = Panic "send on closed channel" /\
      monitorMap (monitorStart_iter w').2 = delete id (monitorMap w)
  end /\
  (forall name,
     monitorMap (addToMonitor name w').2 =
       <[default 0 (head (ch_buf (mpvInfoChan w))) := name]> (monitorMap w)).
Proof.
  intros Hs. destruct (shutdown_spec w w' Hs) as (_ & Hl & Hc & Hi & He & Hm & Hmap).
  split; [by rewrite Hc, Hi, He, Hm, Hmap|]. split; [|split].
  - unfold shutdown, bind, modify, close_MPVErrors. cbn [MPVErrors set_conn].
    by rewrite Hm.
  - unfold monitorStart_iter, bind, gets, modify, ret, offer_MPVErrors, chan_poll.
    rewrite He. cbn [ch_buf ch_closed ch_cap].
    destruct (ch_buf (mpvErrorChan w)) as [|id ids].
    + cbn [negb snd]. rewrite <- He. by destruct w'.
    + cbn [negb MPVErrors set_monitorMap set_mpvErrorChan monitorMap]. rewrite Hm, Hmap.
      by cbn.
  - intros name. rewrite addToMonitor_spec. unfold chan_poll. rewrite Hi, Hmap.
    cbn [ch_buf ch_closed ch_cap snd]. by destruct (ch_buf (mpvInfoChan w)).
Qed.

(** ** What the caller context leaves to the background tasks *)

#[local] Instance calm_preorder : PreOrder (calm T).
Proof.
  split.
  - intros w. by repeat split.
  - intros w1 w2 w3 (A1 & A2 & A3 & A4 & A5 & A6) (B1 & B2 & B3 & B4 & B5 & B6).
    repeat split; try congruence; [lia|auto].
Qed.

Lemma calm_prim : prim_frame (calm T).
Proof. intros w e c Hc. by repeat split. Qed.

Lemma calm_addToMonitor name : keeps (calm T) (addToMonitor name).
Proof.
  intros w. rewrite addToMonitor_spec. cbn [snd]. unfold chan_poll.
  destruct (ch_buf (mpvInfoChan w)) as [|id ids] eqn:Hb.
  - destruct (ch_closed (mpvInfoChan w)) eqn:Hc; [|reflexivity].
    repeat split; cbn; rewrite ?Hb; done.
  - repeat split; cbn; rewrite ?Hb; cbn; try done; lia.
Qed.

Lemma calm_set_loop l w : l ∈ loop_states -> calm T w (set_loop l w).
Proof. intros Hl. by repeat split. Qed.

Lemma run_op_calm o : keeps (calm T) (run_op o).
Proof.
  destruct o; unfold_run_op;
    keeps_run ltac:(first
      [ exact calm_prim | apply calm_addToMonitor
      | apply calm_set_loop; unfold loop_states; set_solver
      | by repeat split ]).
Qed.

(** X12: no operation of the Connector, and no run of operations one
    after the other, however it ends, touches the error queue or
    [MPVErrors], closes or resizes the info queue or adds to it, or
    takes [loop] out of its three states: all of this is left to the
    event listener and the monitor task. *)
Theorem operations_are_calm (ops : list (Op T)) w :
  calm T w (run (map AOp ops) w).2.
Proof.
  revert w. change (keeps (calm T) (run (map AOp ops))).
  induction ops as [|o ops IH]; cbn [map run]; [apply keeps_ret; tc_solve|].
  apply keeps_bind; [tc_solve| |done].
  unfold step. keeps_run ltac:(apply run_op_calm).
Qed.

Lemma settled_calm w w' : settled w -> calm T w w' -> settled w'.
Proof.
  intros (S1 & S2 & S3 & S4 & S5 & S6 & S7) (A1 & A2 & A3 & A4 & A5 & A6).
  unfold settled. rewrite A1, A2, A3, A4. repeat split; auto; lia.
Qed.

Lemma settled_sent_info id w w' :
  settled w -> send_mpvInfoChan id w = (Ret tt, w') -> settled w'.
Proof.
  intros (S1 & S2 & S3 & S4 & S5 & S6 & S7). unfold send_mpvInfoChan, chan_send.
  destruct (ch_closed (mpvInfoChan w)) eqn:Hc; [discriminate|].
  destruct (_ <? _)%nat eqn:Hl; [|discriminate]. intros [= <-].
  apply Nat.ltb_lt in Hl. unfold settled. cbn. rewrite length_app. cbn.
  repeat split; auto; lia.
Qed.

Lemma settled_sent_error id w w' :
  settled w -> send_mpvErrorChan id w = (Ret tt, w') -> settled w'.
Proof.
  intros (S1 & S2 & S3 & S4 & S5 & S6 & S7). unfold send_mpvErrorChan, chan_send.
  destruct (ch_closed (mpvErrorChan w)) eqn:Hc; [discriminate|].
  destruct (_ <? _)%nat eqn:Hl; [|discriminate]. intros [= <-].
  apply Nat.ltb_lt in Hl. unfold settled. cbn. rewrite length_app. cbn.
  repeat split; auto; lia.
Qed.

Lemma settled_shutdown w w' : settled w -> shutdown w = (Ret tt, w') -> settled w'.
Proof.
  intros (S1 & S2 & S3 & S4 & S5 & S6 & S7) Hs.
  destruct (shutdown_spec w w' Hs) as (_ & Hl & _ & Hi & He & Hm & _).
  unfold settled. rewrite Hl, Hi, He, Hm. by cbn.
Qed.

Lemma listener_settled got w b w' :
  settled w -> eventListener_iter got w = (Ret b, w') -> settled w'.
Proof.
  intros Hs. unfold eventListener_iter.
  assert (Hd : forall u, bind shutdown (fun _ => ret false) w = (Ret b, u) -> settled u).
  { intros u. unfold bind, ret. destruct (shutdown w) as [[[]|msg|] w1] eqn:E; [|done..].
    intros [= _ <-]. by apply (settled_shutdown w). }
  destruct got as [ev|]; [|apply Hd].
  repeat case_bool_decide; try apply Hd; try (by intros [= _ <-]).
  - unfold bind, as_float64, panic, ret.
    destruct (extra ev "playlist_entry_id") as [| | |f|]; try done.
    destruct (send_mpvInfoChan _ w) as [[[]|msg|] w1] eqn:E; [|done..].
    intros [= _ <-]. by apply (settled_sent_info (float_to_int T f) w).
  - destruct (negb _ && negb _); [|by intros [= _ <-]].
    unfold bind, as_string, as_float64, panic, ret.
    destruct (extra ev "file_error") as [| | | |msg]; try done.
    case_bool_decide; cbn [negb]; [by intros [= _ <-]|].
    destruct (extra ev "playlist_entry_id") as [| | |f|]; try done.
    destruct (send_mpvErrorChan _ w) as [[[]|msg'|] w1] eqn:E; [|done..].
    intros [= _ <-]. by apply (settled_sent_error (float_to_int T f) w).
Qed.

Lemma monitor_settled w b w' :
  settled w -> monitorStart_iter w = (Ret b, w') -> settled w'.
Proof.
  intros (S1 & S2 & S3 & S4 & S5 & S6 & S7).
  unfold monitorStart_iter, bind, gets, modify, ret, offer_MPVErrors, chan_poll.
  destruct (ch_buf (mpvErrorChan w)) as [|id ids] eqn:Hb.
  - destruct (ch_closed (mpvErrorChan w)) eqn:Hc; [|discriminate].
    cbn [negb]. intros [= _ <-]. unfold settled. cbn. rewrite Hb, Hc.
    repeat split; auto; lia.
  - cbn [negb MPVErrors set_monitorMap set_mpvErrorChan].
    destruct (err_closed (MPVErrors w)) eqn:Hc; [discriminate|].
    cbn [length] in S7.
    destruct (err_receivers (MPVErrors w)); intros [= _ <-]; unfold settled; cbn;
      rewrite ?Hc; repeat split; auto; lia.
Qed.

Lemma step_settled a w w' : settled w -> step a w = (Ret tt, w') -> settled w'.
Proof.
  intros Hs. destruct a as [o|got| |]; unfold step.
  - intros E. apply (settled_calm w); [done|].
    pose proof (run_op_calm o w) as H. revert E H. unfold bind, ret.
    by destruct (run_op o w) as [[r|msg|] w1]; intros [= <-].
  - unfold bind, ret. destruct (eventListener_iter got w) as [[b|msg|] w1] eqn:E; [|done..].
    intros [= <-]. by apply (listener_settled got w b).
  - unfold bind, ret. destruct (monitorStart_iter w) as [[b|msg|] w1] eqn:E; [|done..].
    intros [= <-]. by apply (monitor_settled w b).
  - destruct Hs as (S1 & S2 & S3 & S4 & S5 & S6 & S7).
    unfold receive_MPVErrors, modify. intros [= <-].
    destruct (err_closed (MPVErrors w)) eqn:Hc; unfold settled; cbn; rewrite ?Hc; done.
Qed.

(** X13: the package variables keep their shape in every state the
    running system reaches from start-up: [loop] is the empty string,
    "loop-file" or "loop-playlist"; the three channels are all open or
    all closed; both queues have capacity 100 and never hold more.  So
    [CycleLoop], in such a state, always sets its two properties. *)
Theorem reachable_settled c0 w :
  reachable c0 w ->
  settled w /\
  exists a b, issued (since w (CycleLoop w).2) = [RSet "loop-file" a; RSet "loop-playlist" b].
Proof.
  intros Hr.
  assert (Hs : settled w).
  { induction Hr as [|a w w' _ IH Hstep]; [|by apply (step_settled a w)].
    unfold settled, loop_states. cbn. rewrite elem_of_cons. repeat split; auto; lia. }
  split; [done|]. destruct Hs as (Hl & _). unfold loop_states in Hl.
  unfold_ops. rewrite !elem_of_cons, elem_of_nil in Hl.
  destruct Hl as [->|[->|[->|[]]]]; cbn [bool_decide decide_rel];
    repeat first [rewrite bool_decide_eq_true_2 by done | rewrite bool_decide_eq_false_2 by done];
    do 2 run_prim; eexists _, _; erewrite since_app by since_done; reflexivity.
Qed.

(** ** Reading and writing the monitor *)

#[local] Instance same_monitor_preorder : PreOrder (@same_monitor T).
Proof.
  split.
  - intros w. by repeat split.
  - intros w1 w2 w3 (A1 & A2 & A3 & A4 & A5) (B1 & B2 & B3 & B4 & B5).
    repeat split; congruence.
Qed.

Lemma same_monitor_prim : prim_frame (@same_monitor T).
Proof. intros w e c Hc. by repeat split. Qed.

(** X14: only four operations of the Connector write the package
    variables: the two loads, [PlaylistClear] and [CycleLoop].  Every
    other operation, however it ends, leaves [loop], the monitor map, the
    two queues and [MPVErrors] exactly as they were. *)
Theorem only_four_operations_write o w :
  writes_monitor o = false -> same_monitor w (run_op o w).2.
Proof.
  intros Ho. revert w. change (keeps same_monitor (run_op o)).
  destruct o; try discriminate Ho; unfold_run_op;
    keeps_run ltac:(first [ exact same_monitor_prim | by repeat split | done ]).
Qed.

(** X15: when the player reports no duration, [Duration] reads the
    length back that [LoadFile] wrote into the options of the entry: if
    the text of a number converts back to that number, and the player
    answers the length option with the text of [d], the result is [d].
    When the length option is not to be had either, or does not convert,
    the result is 0. *)
Theorem Duration_reads_back_length d w v e w1 :
  Get "duration" w = (Ret (v, Some e), w1) ->
  (forall w2,
     strconv_Atoi T (strconv_Itoa T d) = (d, None) ->
     Get "options/length" w1 = (Ret (VString (strconv_Itoa T d), None), w2) ->
     Duration w = (Ret d, w2)) /\
  (forall text z e' w2,
     strconv_Atoi T text = (z, Some e') ->
     Get "options/length" w1 = (Ret (VString text, None), w2) ->
     Duration w = (Ret 0, w2)) /\
  (forall v2 e2 w2,
     Get "options/length" w1 = (Ret (v2, Some e2), w2) ->
     Duration w = (Ret 0, w2)).
Proof.
  intros E1. unfold Duration, as_string, bind, ret. rewrite E1. cbn [is_err].
  split; [|split].
  - intros w2 Hrt E2. rewrite E2. cbv beta iota. cbn [is_err]. by rewrite Hrt.
  - intros text z e' w2 Ha E2. rewrite E2. cbv beta iota. cbn [is_err]. by rewrite Ha.
  - intros v2 e2 w2 E2. by rewrite E2.
Qed.

(** ** A closed connection stays closed *)

Ltac untouched_only :=
  split; [reflexivity|];
  eexists; split;
  [ cbn [trace log set_loop set_monitorMap]; rewrite <- ?app_assoc; try reflexivity;
    symmetry; apply app_nil_r
  | repeat constructor ].

Lemma run_op_untouched o w :
  conn_IsClosed T (conn w) = true -> untouched w (run_op o w).2.
Proof.
  intros H. unfold untouched.
  destruct o; try (closed_run H; untouched_only).
  - destruct files as [|f0 fs]; closed_run H; untouched_only.
  - destruct replace; closed_run H; untouched_only.
  - closed_run H. repeat case_bool_decide; closed_run H; untouched_only.
Qed.

#[local] Instance silent_preorder : PreOrder (silent T).
Proof.
  split.
  - intros w Hc. split; [done|]. exists []. by rewrite app_nil_r.
  - intros w1 w2 w3 H1 H2 Hc. destruct (H1 Hc) as (Hc2 & evs1 & E1 & F1).
    destruct (H2 Hc2) as (Hc3 & evs2 & E2 & F2). split; [done|].
    exists (evs1 ++ evs2)%list. split; [by rewrite E2, E1, app_assoc|].
    by apply Forall_app.
Qed.

(** A step that leaves the connection and the trace alone. *)
Lemma silent_aside w w' : conn w' = conn w -> trace w' = trace w -> silent T w w'.
Proof.
  intros Hc Ht H. rewrite Hc, Ht. split; [done|]. exists []. by rewrite app_nil_r.
Qed.

Ltac aside :=
  intros w;
  cbv [send_mpvInfoChan send_mpvErrorChan offer_MPVErrors close_MPVErrors
       close_mpvInfoChan close_mpvErrorChan receive_MPVErrors chan_send chan_close modify];
  repeat match goal with
    | |- context [if ?b then _ else _] => destruct b eqn:?
    | |- context [match ?x with O => _ | S _ => _ end] => destruct x eqn:?
    end;
  by apply silent_aside.

Lemma silent_send_mpvInfoChan id : keeps (silent T) (send_mpvInfoChan id).
Proof. aside. Qed.
Lemma silent_send_mpvErrorChan id : keeps (silent T) (send_mpvErrorChan id).
Proof. aside. Qed.
Lemma silent_offer_MPVErrors title : keeps (silent T) (offer_MPVErrors title).
Proof. aside. Qed.
Lemma silent_receive_MPVErrors : keeps (silent T) receive_MPVErrors.
Proof. aside. Qed.
Lemma silent_close_MPVErrors : keeps (silent T) close_MPVErrors.
Proof. aside. Qed.
Lemma silent_close_mpvInfoChan : keeps (silent T) close_mpvInfoChan.
Proof. aside. Qed.
Lemma silent_close_mpvErrorChan : keeps (silent T) close_mpvErrorChan.
Proof. aside. Qed.

Lemma silent_run_op o : keeps (silent T) (run_op o).
Proof.
  intros w Hc. destruct (run_op_untouched o w Hc) as (E & evs & Ht & Hf).
  split; [by rewrite E|]. by exists evs.
Qed.

Lemma silent_shutdown : closing_closes T -> keeps (silent T) shutdown.
Proof.
  intros Hcl. unfold shutdown.
  keeps_run ltac:(first
    [ apply silent_close_MPVErrors | apply silent_close_mpvInfoChan
    | apply silent_close_mpvErrorChan ]).
  - intros Hc. cbn. split; [apply Hcl|]. exists []. by rewrite app_nil_r.
  - intros Hc. cbn. split; [done|]. exists [EStopListening]. by repeat constructor.
Qed.

Lemma silent_listener got : closing_closes T -> keeps (silent T) (eventListener_iter got).
Proof.
  intros Hcl. unfold eventListener_iter, as_float64, as_string.
  destruct got as [ev|]; repeat case_bool_decide;
    keeps_run ltac:(first
      [ apply silent_send_mpvInfoChan | apply silent_send_mpvErrorChan
      | by apply silent_shutdown ]).
Qed.

Lemma silent_monitor : keeps (silent T) monitorStart_iter.
Proof.
  unfold monitorStart_iter.
  keeps_run ltac:(first [ apply silent_offer_MPVErrors | by apply silent_aside ]).
Qed.

Lemma silent_step a : closing_closes T -> keeps (silent T) (step a).
Proof.
  intros Hcl. destruct a; unfold step.
  - keeps_run ltac:(apply silent_run_op).
  - keeps_run ltac:(by apply silent_listener).
  - keeps_run ltac:(apply silent_monitor).
  - apply silent_receive_MPVErrors.
Qed.

(** X16: once the connection is closed nothing reaches the transport
    any more.  Whatever the caller context, the event listener and the
    monitor task go on to do, and however that ends, the connection is
    still closed afterwards and every request entered since has been
    turned away, provided that [Close] on the connection leaves it
    closed. *)
Theorem closed_connection_stays_silent acts w :
  closing_closes T ->
  conn_IsClosed T (conn w) = true ->
  conn_IsClosed T (conn (run acts w).2) = true /\
  Forall (fun e => forwarded e = false) (since w (run acts w).2).
Proof.
  intros Hcl Hc.
  assert (Hk : keeps (silent T) (run acts)).
  { induction acts as [|a acts IH]; cbn [run]; [apply keeps_ret; tc_solve|].
    apply keeps_bind; [tc_solve|by apply silent_step|done]. }
  destruct (Hk w Hc) as (Hc' & evs & E & Hf). split; [done|].
  by rewrite (since_app _ _ _ E).
Qed.

(** ** Batches of loads *)

Lemma batch_starts (fs : list (float64 T)) w buf cap :
  mpvInfoChan w = mkChan buf cap false ->
  (length buf + length fs <= cap)%nat ->
  run (map (fun f => AEvent (Some (start_file f))) fs) w =
    (Ret tt, set_mpvInfoChan (mkChan (buf ++ map (float_to_int T) fs) cap false) w).
Proof.
  revert w buf. induction fs as [|f fs IH]; intros w buf Hq Hl.
  - cbn [map run ret]. rewrite app_nil_r, <- Hq. by destruct w.
  - cbn [map run step length] in *. unfold bind at 1 2. rewrite start_file_iter, Hq.
    unfold chan_send. cbn [ch_closed ch_buf ch_cap].
    rewrite (proj2 (Nat.ltb_lt _ _)) by lia. unfold ret.
    rewrite (IH _ (buf ++ [float_to_int T f])%list); [|done|rewrite length_app; cbn; lia].
    by rewrite <- app_assoc.
Qed.

Lemma batch_loads (ls : list Load) w ids cap :
  accepting T ->
  conn_IsClosed T (conn w) = false ->
  mpvInfoChan w = mkChan ids cap false ->
  length ids = length ls ->
  exists w',
    run (map (fun l => AOp (load_op l)) ls) w = (Ret tt, w') /\
    conn_IsClosed T (conn w') = false /\
    mpvInfoChan w' = mkChan [] cap false /\
    mpvErrorChan w' = mpvErrorChan w /\ MPVErrors w' = MPVErrors w /\
    monitorMap w' = after_loads (monitorMap w) (zip ids ls).
Proof.
  intros Ha. revert w ids. induction ls as [|l ls IH]; intros w ids Ho Hq Hl.
  - destruct ids; [|done]. exists w. by rewrite Hq.
  - destruct ids as [|id ids]; [done|]. cbn [map run step].
    destruct (load_accepted l id ids cap w Ha Ho Hq)
      as (w1 & E1 & Ho1 & Hq1 & He1 & Hm1 & Hmap1).
    destruct (IH w1 ids Ho1 Hq1) as (w' & E & Ho' & Hq' & He' & Hm' & Hmap'); [by inversion Hl|].
    exists w'. unfold bind at 1 2. rewrite E1. unfold ret at 1.
    split; [exact E|]. split; [done|]. split; [done|].
    split; [congruence|]. split; [congruence|]. rewrite Hmap', Hmap1. done.
Qed.

(** X17: loads may come in batches.  When the player announces the
    start of several entries and the loads then return one after the
    other, on a player that takes every command, each load is given the
    identifier of its own start event, first to first: the titles go
    into the monitor map in that order, a replacing [LoadPlaylist]
    clearing the titles registered before it, and the system is idle
    again afterwards.  The batch may be as large as the info queue. *)
Theorem batch_of_loads_pairs_in_order fs ls w :
  accepting T -> idle w ->
  length fs = length ls ->
  (length fs <= ch_cap (mpvInfoChan w))%nat ->
  exists w',
    run (batch fs ls) w = (Ret tt, w') /\ idle w' /\
    monitorMap w' = after_loads (monitorMap w) (zip (map (float_to_int T) fs) ls).
Proof.
  intros Ha (Ho & [n Hi] & He & Hm) Hl Hcap. unfold batch. rewrite run_app.
  rewrite (batch_starts fs w [] (S n)); [|done|by rewrite Hi in Hcap].
  cbn [app].
  destruct (batch_loads ls
    (set_mpvInfoChan (mkChan (map (float_to_int T) fs) (S n) false) w)
    (map (float_to_int T) fs) (S n) Ha) as (w' & E & Ho' & Hq' & He' & Hm' & Hmap');
    [done|done|by rewrite length_map|].
  exists w'. split; [exact E|]. split; [|exact Hmap'].
  split; [done|]. split; [by exists n|]. split; [by rewrite He'|by rewrite Hm'].
Qed.

End ConnectorProperties.

(** ** The process launcher *)

Section LauncherProperties.

Context {T : Env}.

Implicit Types (c : Conn T).

Lemma open_attempts_app evs1 evs2 :
  open_attempts (evs1 ++ evs2) = (open_attempts evs1 + open_attempts evs2)%nat.
Proof.
  unfold open_attempts. induction evs1 as [|[] evs1 IH]; cbn [app foldr]; lia.
Qed.

Lemma seconds_slept_app evs1 evs2 :
  seconds_slept (evs1 ++ evs2) = seconds_slept evs1 + seconds_slept evs2.
Proof.
  unfold seconds_slept. induction evs1 as [|[] evs1 IH]; cbn [app foldr]; lia.
Qed.

Lemma failed_attempts_count k :
  open_attempts (failed_attempts k) = k /\ seconds_slept (failed_attempts k) = Z.of_nat k.
Proof.
  induction k as [|k [IH1 IH2]]; [done|].
  unfold failed_attempts in *. cbn [replicate concat app open_attempts seconds_slept foldr].
  unfold open_attempts, seconds_slept in *. rewrite IH1, IH2. split; [done|lia].
Qed.

Lemma connect_loop_exhausted n c c' :
  refused n c = Some c' ->
  connect_loop n c = (None, Some ConnectTimeoutError, failed_attempts n).
Proof.
  revert c. induction n as [|n IH]; intros c; cbn [refused connect_loop]; [done|].
  destruct (conn_Open T c) as [[e|] c1]; [|done].
  intros H. by rewrite (IH _ H).
Qed.

Lemma connect_loop_connected n k c c' c'' :
  refused k c = Some c' -> conn_Open T c' = (None, c'') -> (k < n)%nat ->
  connect_loop n c = (Some c'', None, (failed_attempts k ++ [LOpen])%list).
Proof.
  revert n c. induction k as [|k IH]; intros n c; cbn [refused].
  - intros [= ->] Ho Hn. destruct n as [|n]; [lia|]. cbn [connect_loop]. by rewrite Ho.
  - destruct (conn_Open T c) as [[e|] c1] eqn:E; [|done].
    intros Hr Ho Hn. destruct n as [|n]; [lia|]. cbn [connect_loop]. rewrite E.
    by rewrite (IH n c1 Hr Ho) by lia.
Qed.

(** C3 (as amended): once mpv is started (or need not be), [MPVConnect]
    tries to open the connection up to [connretries] times.  It returns
    the Connector at the first attempt that succeeds, after one open
    attempt and one second of sleep for each attempt that failed before.
    When all attempts fail it returns the error "Could not connect to
    socket" after exactly [connretries] attempts, having slept one second
    after every one of them, the last included: [connretries] seconds in
    all, 3 for a budget of 3. *)
Theorem MPVConnect_retries fl socket mpvexec :
  (mpvexec = true -> exec_Start T (mpv_argv fl socket) = None) ->
  let n := Z.to_nat (connretries fl) in
  let c0 := mpvipc_NewConnection T socket in
  let started := if mpvexec then [LStart (mpv_argv fl socket)] else [] in
  (forall k c' c'',
     refused k c0 = Some c' -> conn_Open T c' = (None, c'') -> (k < n)%nat ->
     MPVConnect T fl socket mpvexec =
       (Some c'', None, (started ++ failed_attempts k ++ [LOpen])%list) /\
     open_attempts (MPVConnect T fl socket mpvexec).2 = S k /\
     seconds_slept (MPVConnect T fl socket mpvexec).2 = Z.of_nat k) /\
  (forall c',
     refused n c0 = Some c' ->
     MPVConnect T fl socket mpvexec =
       (None, Some ConnectTimeoutError, (started ++ failed_attempts n)%list) /\
     open_attempts (MPVConnect T fl socket mpvexec).2 = n /\
     seconds_slept (MPVConnect T fl socket mpvexec).2 = Z.of_nat n).
Proof.
  intros Hstart n c0 started.
  assert (Hs : forall evs, open_attempts (started ++ evs) = open_attempts evs /\
                           seconds_slept (started ++ evs) = seconds_slept evs).
  { intros evs. subst started. by destruct mpvexec. }
  assert (Hm : MPVConnect T fl socket mpvexec =
    let '(r, err, evs) := connect_loop n c0 in (r, err, (started ++ evs)%list)).
  { unfold MPVConnect. subst started. destruct mpvexec; [|done].
    by rewrite (Hstart eq_refl). }
  destruct (failed_attempts_count n) as [Hn1 Hn2].
  split.
  - intros k c' c'' Hr Ho Hk. rewrite Hm, (connect_loop_connected n k c0 c' c'' Hr Ho Hk).
    destruct (failed_attempts_count k) as [Hk1 Hk2].
    split; [done|]. cbn [snd]. destruct (Hs (failed_attempts k ++ [LOpen])%list) as [-> ->].
    rewrite open_attempts_app, seconds_slept_app, Hk1, Hk2. cbn. split; lia.
  - intros c' Hr. rewrite Hm, (connect_loop_exhausted n c0 c' Hr).
    split; [done|]. cbn [snd]. by destruct (Hs (failed_attempts n)) as [-> ->].
Qed.

Lemma launches_app evs1 evs2 : launches (evs1 ++ evs2) = (launches evs1 ++ launches evs2)%list.
Proof. unfold launches. apply omap_app. Qed.

(** A run of the loop, whatever the socket does. *)
Lemma connect_loop_spec n c :
  let '(r, err, evs) := connect_loop n c in
  launches evs = [] /\
  (open_attempts evs <= n)%nat /\
  seconds_slept evs = Z.of_nat (open_attempts evs) - match r with Some _ => 1 | None => 0 end /\
  match r, err with
  | Some c', None => exists c0, conn_Open T c0 = (None, c')
  | None, Some e => e = ConnectTimeoutError /\ open_attempts evs = n
  | _, _ => False
  end.
Proof.
  revert c. induction n as [|n IH]; intros c; cbn [connect_loop].
  - by cbn.
  - destruct (conn_Open T c) as [[e|] c1] eqn:E.
    + specialize (IH c1). destruct (connect_loop n c1) as [[r err] evs].
      destruct IH as (H1 & H2 & H3 & H4).
      split; [done|]. cbn [open_attempts seconds_slept foldr].
      fold (open_attempts evs). fold (seconds_slept evs).
      split; [lia|]. split; [lia|].
      destruct r, err; try done. destruct H4 as [-> <-]. done.
    + split; [done|]. split; [cbn; lia|]. split; [done|]. by exists c.
Qed.

(** What [MPVConnect] hands back, and the processes it started. *)
Lemma MPVConnect_result fl socket mpvexec :
  let '(r, err, evs) := MPVConnect T fl socket mpvexec in
  launches evs = (if mpvexec then [mpv_argv fl socket] else []) /\
  match r, err with
  | Some _, None | None, Some _ => True
  | _, _ => False
  end.
Proof.
  unfold MPVConnect.
  pose proof (connect_loop_spec (Z.to_nat (connretries fl)) (mpvipc_NewConnection T socket))
    as Hl.
  destruct (connect_loop _ _) as [[r err] evs]. destruct Hl as (H1 & _ & _ & H4).
  destruct mpvexec; cbn [fst snd].
  - destruct (exec_Start T (mpv_argv fl socket)) as [e|]; cbn [is_err]; [by cbn|].
    cbn [app]. split; [by cbn; fold (launches evs); rewrite H1|].
    by destruct r, err.
  - split; [done|]. by destruct r, err.
Qed.

(** X18: what every run of [MPVConnect] keeps to.  It hands back a
    Connector or an error, never both and never neither, and the
    Connector's connection is one that [Open] returned without error.  It
    starts a process once if asked to, and never otherwise.  It tries the
    socket at most [connretries] times, not at all when the process could
    not be started, and exactly [connretries] times before it gives up.
    It sleeps one second for each attempt that failed. *)
Theorem MPVConnect_bounded fl socket mpvexec :
  let '(r, err, evs) := MPVConnect T fl socket mpvexec in
  let unstarted := mpvexec && is_err (exec_Start T (mpv_argv fl socket)) in
  let budget := if unstarted then O else Z.to_nat (connretries fl) in
  launches evs = (if mpvexec then [mpv_argv fl socket] else []) /\
  (open_attempts evs <= budget)%nat /\
  seconds_slept evs = Z.of_nat (open_attempts evs) - match r with Some _ => 1 | None => 0 end /\
  match r, err with
  | Some c, None => exists c0, conn_Open T c0 = (None, c)
  | None, Some e =>
      e = (if unstarted then LaunchError else ConnectTimeoutError) /\
      open_attempts evs = budget
  | _, _ => False
  end.
Proof.
  unfold MPVConnect.
  pose proof (connect_loop_spec (Z.to_nat (connretries fl)) (mpvipc_NewConnection T socket))
    as Hl.
  destruct (connect_loop _ _) as [[r err] evs]. destruct Hl as (H1 & H2 & H3 & H4).
  destruct mpvexec; cbn [fst snd andb].
  - destruct (exec_Start T (mpv_argv fl socket)) as [e|]; cbn [is_err]; [by cbn|].
    cbn [app]. split; [by cbn; fold (launches evs); rewrite H1|]. done.
  - done.
Qed.

(** X19: with a retry budget of zero or less [MPVConnect] never tries
    the socket: once the process is started (if it is to be), the call
    fails with the connect error, also when the socket is ready. *)
Theorem MPVConnect_without_budget fl socket mpvexec :
  connretries fl <= 0 ->
  (mpvexec = true -> exec_Start T (mpv_argv fl socket) = None) ->
  MPVConnect T fl socket mpvexec =
    (None, Some ConnectTimeoutError, if mpvexec then [LStart (mpv_argv fl socket)] else []).
Proof.
  intros Hn Hs. unfold MPVConnect.
  assert (E : Z.to_nat (connretries fl) = O) by lia. rewrite E. cbn [connect_loop].
  destruct mpvexec; [|done]. by rewrite (Hs eq_refl).
Qed.

(** ** Start-up, and the closing of other instances *)

(** X20: [CloseInstances] never starts a process and never removes the
    socket file, and it returns in every case.  When it cannot connect it
    does nothing more.  When it connects it sends the quit command on its
    own connection, unless that connection reports closed, and then
    sleeps two seconds; the package variables of the monitor and the
    connection of [mpvctl] are not touched. *)
Theorem CloseInstances_only_quits fl socket (w : World T) :
  let '(out, w', evs) := CloseInstances fl socket w in
  out = Ret tt /\
  same_monitor w w' /\ conn w' = conn w /\
  launches evs = [] /\
  match (MPVConnect T fl socket false).1.1 with
  | Some c =>
      since w w' =
        (if conn_IsClosed T c then [] else [EPrim (RCall [VString "quit"]) true]) /\
      evs = ((MPVConnect T fl socket false).2 ++ [LSleep 2])%list
  | None => w' = w /\ evs = (MPVConnect T fl socket false).2
  end.
Proof.
  unfold CloseInstances. pose proof (MPVConnect_result fl socket false) as Hm.
  destruct (MPVConnect T fl socket false) as [[r err] evs].
  destruct Hm as (H1 & H4). cbn [fst snd].
  destruct r as [c|], err as [e|]; try done; cbn [is_err].
  unfold on_connector. destruct (MPVStop_spec false (set_conn c w)) as [c1 ->].
  cbn [conn set_conn]. destruct (conn_IsClosed T c) eqn:Hc.
  - split; [done|]. split; [done|]. split; [done|].
    split; [by rewrite launches_app, H1|]. split; [|done].
    unfold since. cbn. apply drop_all.
  - split; [done|]. split; [done|]. split; [done|].
    split; [by rewrite launches_app, H1|]. split; [|done].
    erewrite since_app; [reflexivity|]. cbn. reflexivity.
Qed.

(** X21: [MPVStart] returns the error of the path resolution without
    launching anything, and the error of [MPVConnect] without setting
    anything up.  Once connected it always reports success: it sends
    the three commands that turn the quit keys of the player off, in
    order, and does not look at their results; the monitor starts with
    an empty map and empty open queues. *)
Theorem MPVStart_outcomes fl config_path :
  let '(out, started, evs) := MPVStart T fl config_path in
  if is_err config_path.2 then
    out = Ret config_path.2 /\ started = None /\ evs = []
  else
    evs = (MPVConnect T fl config_path.1 true).2 /\
    match (MPVConnect T fl config_path.1 true).1.1 with
    | None =>
        out = Ret (MPVConnect T fl config_path.1 true).1.2 /\
        is_err (MPVConnect T fl config_path.1 true).1.2 = true /\
        started = None
    | Some c =>
        out = Ret None /\
        exists w,
          started = Some w /\
          same_monitor (init_world T c) w /\
          issued (trace w) =
            [RCall (keybind "q"); RCall (keybind "Ctrl+q"); RCall (keybind "Shift+q")]
    end.
Proof.
  unfold MPVStart. destruct config_path as [socket err]. cbn [fst snd].
  destruct (is_err err) eqn:He; [done|].
  pose proof (MPVConnect_result fl socket true) as Hm.
  destruct (MPVConnect T fl socket true) as [[r e] evs].
  destruct Hm as (_ & H4). cbn [fst snd].
  destruct r as [c|], e as [e|]; try done; cbn [is_err].
  unfold bind, ret.
  destruct (Call_spec (keybind "q") (init_world T c)) as (v1 & e1 & f1 & c1 & -> & _).
  destruct (Call_spec (keybind "Ctrl+q")
              (log (EPrim (RCall (keybind "q")) f1) (set_conn c1 (init_world T c))))
    as (v2 & e2 & f2 & c2 & -> & _).
  destruct (Call_spec (keybind "Shift+q")
              (log (EPrim (RCall (keybind "Ctrl+q")) f2) (set_conn c2
                 (log (EPrim (RCall (keybind "q")) f1) (set_conn c1 (init_world T c))))))
    as (v3 & e3 & f3 & c3 & -> & _).
  split; [done|]. split; [done|]. eexists. split; [reflexivity|]. by split.
Qed.

End LauncherProperties.

(** ** The lifecycle watcher *)

Module UIProperties.
Import UI.

(** C8 (as amended): woken by the closed connection, the watcher does
    nothing at all when the shutdown signal is already closed.  When the
    signal is still open it closes the signal and tears the application
    down once, then removes the socket file once if the socket path
    resolves (and not at all if it does not), then prints its message; a
    later wake-up finds the signal closed and does nothing. *)
Theorem watcher_tears_down_once config_path s :
  (signal_closed s -> detectMPVClose true config_path s = (Ret tt, s)) /\
  (signal_open s ->
   exists s',
     detectMPVClose true config_path s = (Ret tt, s') /\
     signal_closed s' /\
     effects s' =
       (effects s ++ [StopPlayer true; AppStop] ++
        (if is_err config_path.2 then [] else [Remove config_path.1]) ++
        [Printf exit_message])%list /\
     teardowns s' = S (teardowns s) /\
     removals s' = (removals s + (if is_err config_path.2 then 0 else 1))%nat /\
     detectMPVClose true config_path s' = (Ret tt, s')).
Proof.
  destruct s as [ch eff]. unfold signal_closed, signal_open. cbn [detectClose].
  split; intros ->; [reflexivity|].
  unfold detectMPVClose, StopUI, teardowns, removals, emit.
  cbn [negb chan_poll chan_close make_chan ch_buf ch_closed ch_cap detectClose effects].
  destruct (is_err config_path.2); cbn [snd fst detectClose effects];
    (eexists; split; [reflexivity|]);
    cbn [chan_poll ch_buf ch_closed detectClose effects];
    rewrite <- ?app_assoc; cbn [app];
    (split; [done|]); (split; [done|]);
    rewrite !List.filter_app, !length_app; cbn; (split; [lia|split; [lia|done]]).
Qed.

End UIProperties.

(** ** The feed pages *)

Section FeedProperties.

Context {T : Env} {N : Http}.

Implicit Types (s : FeedState N).

Lemma wrap_int_small z : - 2 ^ 63 <= z < 2 ^ 63 -> wrap_int z = z.
Proof. intros Hz. unfold wrap_int. rewrite Z.mod_small; lia. Qed.

(** What a call of [Feed] does to the page and to the queries, whatever
    comes of the request. *)
Lemma Feed_state (getmore : bool) s :
  let page := if getmore then wrap_int (feedPage s + 1) else 1 in
  feedPage (Feed T getmore s).2 = page /\
  queries (Feed T getmore s).2 = (queries s ++ [feed_query T page])%list.
Proof.
  unfold Feed, feed_query, getFeedPage.
  destruct getmore; cbn [incFeedPage resetFeedPage feedPage net queries];
    destruct (ClientRequest N _ _) as [[res err] n]; (destruct (is_err err); [done|]);
    destruct (Decode N res) as [result e]; by destruct (is_err e).
Qed.

Lemma feeds_more k s :
  - 2 ^ 63 <= feedPage s -> feedPage s + Z.of_nat k < 2 ^ 63 ->
  feedPage (feeds T (replicate k true) s) = feedPage s + Z.of_nat k /\
  queries (feeds T (replicate k true) s) =
    (queries s ++ map (fun i => feed_query T (feedPage s + Z.of_nat i)) (seq 1 k))%list.
Proof.
  revert s. induction k as [|k IH]; intros s Hlo Hhi.
  - cbn. split; [lia|by rewrite app_nil_r].
  - cbn [replicate feeds]. destruct (Feed_state true s) as [Hp Hq].
    rewrite wrap_int_small in Hp, Hq by lia.
    destruct (IH (Feed T true s).2) as [H1 H2]; [lia..|].
    rewrite H1, H2, Hp, Hq. split; [lia|].
    rewrite <- app_assoc. f_equal. cbn [seq map app]. f_equal.
    rewrite <- (seq_shift k 1), List.map_map. apply List.map_ext. intros i. f_equal. lia.
Qed.

(** X22: the pages [Feed] asks for.  A call without [getmore] asks for
    page 1 whatever was asked before, and the [k] calls with [getmore]
    that follow ask for the pages 2 to [k] + 1 in turn, whether the
    requests succeed or not. *)
Theorem Feed_pages k s :
  Z.of_nat k + 1 < 2 ^ 63 ->
  feedPage (feeds T (false :: replicate k true) s) = 1 + Z.of_nat k /\
  queries (feeds T (false :: replicate k true) s) =
    (queries s ++ map (fun i => feed_query T (Z.of_nat i)) (seq 1 (S k)))%list.
Proof.
  intros Hk. cbn [feeds]. destruct (Feed_state false s) as [Hp Hq].
  destruct (feeds_more k (Feed T false s).2) as [H1 H2]; [lia..|].
  rewrite H1, H2, Hp, Hq. split; [done|].
  rewrite <- app_assoc. f_equal. cbn [seq map app]. f_equal.
  rewrite <- (seq_shift k 1), List.map_map. apply List.map_ext. intros i. f_equal. lia.
Qed.

(** X23: a call of [Feed] that returns an error returns the empty
    result with it, and has turned the page all the same: asking for more
    after the failure asks for the page after the one that failed, not
    for that page again. *)
Theorem failed_Feed_still_turns_the_page (getmore : bool) s e :
  (Feed T getmore s).1.2 = Some e ->
  let page := if getmore then wrap_int (feedPage s + 1) else 1 in
  (Feed T getmore s).1.1 = mkFeedResult [] /\
  feedPage (Feed T getmore s).2 = page /\
  queries (Feed T true (Feed T getmore s).2).2 =
    (queries s ++ [feed_query T page; feed_query T (wrap_int (page + 1))])%list.
Proof.
  intros He page. destruct (Feed_state getmore s) as [Hp Hq].
  destruct (Feed_state true (Feed T getmore s).2) as [_ Hq'].
  split; [|split; [exact Hp|]].
  - revert He. unfold Feed.
    destruct (ClientRequest N _ _) as [[res err] n]. destruct (is_err err); [done|].
    destruct (Decode N res) as [result e']. destruct e'; [done|]. discriminate.
  - rewrite Hq', Hq, Hp. by rewrite <- app_assoc.
Qed.

End FeedProperties.

(** ** Teardown, keyboard and banner *)

Module TeardownProperties.
Import UI.

(** X24: the application is torn down once.  While the shutdown signal
    is open [StopUI] closes it, stops the player and then the
    application.  After that, whoever made the call, the watcher stays
    silent when the player goes away, and a further call of [StopUI]
    panics on the closed channel before it stops anything; so does a
    call that comes after the teardown of the watcher. *)
Theorem teardown_once_or_panic closeInstances again config_path s :
  signal_open s ->
  exists s',
    StopUI closeInstances s = (Ret tt, s') /\
    effects s' = (effects s ++ [StopPlayer closeInstances; AppStop])%list /\
    signal_closed s' /\
    detectMPVClose true config_path s' = (Ret tt, s') /\
    StopUI again s' = (Panic "close of closed channel", s') /\
    StopUI again (detectMPVClose true config_path s).2 =
      (Panic "close of closed channel", (detectMPVClose true config_path s).2).
Proof.
  destruct s as [ch eff]. unfold signal_open, signal_closed. cbn [detectClose].
  intros ->. eexists. split; [reflexivity|].
  split; [by cbn; rewrite <- app_assoc|]. split; [done|]. split; [done|]. split; [done|].
  unfold detectMPVClose, StopUI. cbn. by destruct (is_err config_path.2).
Qed.

End TeardownProperties.

Module FrontProperties.
Import Front.

Lemma core_StopUI b s :
  core (UI.StopUI b) s =
    if ch_closed (signal s) then (Panic "close of closed channel", s)
    else (Ret tt,
          mkState (mkChan (ch_buf (signal s)) (ch_cap (signal s)) true)
            (acts s ++ [Core (UI.StopPlayer b); Core UI.AppStop])%list (appSuspend s)).
Proof.
  destruct s as [ch ac sus]. unfold core, UI.StopUI, chan_close. cbn.
  destruct (ch_closed ch); cbn; [by rewrite app_nil_r|done].
Qed.

Lemma stops_app s more :
  stops (mkState (signal s) (acts s ++ more)%list (appSuspend s)) =
    (stops s + stops (mkState (signal s) more (appSuspend s)))%nat.
Proof. unfold stops. cbn [acts]. by rewrite List.filter_app, length_app. Qed.

Lemma qfocus_acts s :
  qfocus s =
    mkState (signal s) (acts s ++ [RestoreInput; SwitchToPage; SetFocus])%list (appSuspend s).
Proof. unfold qfocus, emit. cbn. by rewrite <- !app_assoc. Qed.

(** X25: the quit prompt stops the application on one input only: the
    key Enter with the text "y" in the input line, which calls
    [StopUI(false)].  Enter with any other text, and Escape, put the
    input line, the status page and the focus back; every other key does
    nothing.  The handler hands the event on in every case but one: on
    Enter with "y" when the shutdown signal is closed already, [StopUI]
    panics on the closed channel and nothing is stopped. *)
Theorem quit_needs_y_and_enter e text s :
  (ifunc e text s).1 =
    (if bool_decide (key e = KeyEnter /\ text = "y") && ch_closed (signal s)
     then Panic "close of closed channel" else Ret e) /\
  acts (ifunc e text s).2 =
    (acts s ++
     (if bool_decide (key e = KeyEnter /\ text = "y")
      then if ch_closed (signal s) then []
           else [Core (UI.StopPlayer false); Core UI.AppStop]
      else if bool_decide (key e = KeyEnter \/ key e = KeyEscape)
           then [RestoreInput; SwitchToPage; SetFocus]
           else []))%list /\
  (stops (ifunc e text s).2 = S (stops s) <->
   key e = KeyEnter /\ text = "y" /\ ch_closed (signal s) = false).
Proof.
  unfold ifunc, qfunc. rewrite core_StopUI, qfocus_acts.
  assert (Hstay : forall more,
    Forall (fun a => a <> Core UI.AppStop) more ->
    stops (mkState (signal s) (acts s ++ more)%list (appSuspend s)) = stops s).
  { intros more Hm. unfold stops. cbn [acts]. rewrite List.filter_app, length_app.
    induction Hm as [|a more Ha _ IH]; cbn [List.filter length]; [lia|].
    destruct a as [[]| | | | | | | | | | | |]; done. }
  destruct (key e) eqn:Hk.
  - destruct (decide (text = "y")) as [->|Hn].
    + rewrite !bool_decide_eq_true_2 by done. cbn [andb].
      destruct (ch_closed (signal s)) eqn:Ho; cbn [fst snd acts].
      * rewrite app_nil_r. split; [done|]. split; [done|].
        split; [lia|]. by intros (_ & _ & ?).
      * split; [done|]. split; [done|]. split; [done|]. intros _.
        unfold stops. cbn [acts]. rewrite List.filter_app, length_app. cbn. lia.
    + rewrite (bool_decide_eq_false_2 (text = "y")) by done.
      rewrite bool_decide_eq_false_2 by tauto. rewrite bool_decide_eq_true_2 by tauto.
      cbn [andb fst snd acts].
      split; [done|]. split; [done|].
      rewrite (Hstay [RestoreInput; SwitchToPage; SetFocus]) by (by repeat constructor).
      split; [lia|tauto].
  - rewrite bool_decide_eq_false_2 by (by intros [? _]).
    rewrite bool_decide_eq_true_2 by tauto.
    cbn [andb fst snd acts].
    split; [done|]. split; [done|].
    rewrite (Hstay [RestoreInput; SwitchToPage; SetFocus]) by (by repeat constructor).
    split; [lia|by intros [? _]].
  - rewrite !bool_decide_eq_false_2 by (by intros []). cbn [andb fst snd].
    rewrite app_nil_r. split; [done|]. split; [done|]. split; [lia|by intros [? _]].
  - rewrite !bool_decide_eq_false_2 by (by intros []). cbn [andb fst snd].
    rewrite app_nil_r. split; [done|]. split; [done|]. split; [lia|by intros [? _]].
  - rewrite !bool_decide_eq_false_2 by (by intros []). cbn [andb fst snd].
    rewrite app_nil_r. split; [done|]. split; [done|]. split; [lia|by intros [? _]].
  - rewrite !bool_decide_eq_false_2 by (by intros []). cbn [andb fst snd].
    rewrite app_nil_r. split; [done|]. split; [done|]. split; [lia|by intros [? _]].
  - rewrite !bool_decide_eq_false_2 by (by intros []). cbn [andb fst snd].
    rewrite app_nil_r. split; [done|]. split; [done|]. split; [lia|by intros [? _]].
Qed.

Lemma inputCapture_acts event front_page focus_is_input s :
  let quits := bool_decide (rune event = rune_q) && negb focus_is_input in
  inputCapture event front_page focus_is_input s =
    if bool_decide (key event = KeyCtrlC) then (None, s)
    else (if quits then None else Some event,
          mkState (signal s)
            (acts s ++ key_acts (key event) front_page ++
             (if quits then [SetInput "Quit? (y/n)" 1] else []))%list
            (appSuspend s || bool_decide (key event = KeyCtrlZ))).
Proof.
  unfold inputCapture, confirmQuit, key_acts, emit. destruct s as [sig ac sus].
  destruct (key event); cbn [signal acts appSuspend];
    repeat first [rewrite bool_decide_eq_true_2 by done | rewrite bool_decide_eq_false_2 by done];
    try reflexivity;
    destruct (bool_decide (rune event = rune_q)), focus_is_input;
    try destruct (bool_decide (front_page <> "dashboard"));
    cbn [andb negb app acts signal appSuspend];
    rewrite <- ?app_assoc, ?app_nil_r, ?orb_false_r, ?orb_true_r; reflexivity.
Qed.

Lemma key_acts_keep_running k front_page more s :
  Forall (fun a => a <> Core UI.AppStop) more ->
  stops (mkState (signal s) (acts s ++ key_acts k front_page ++ more)%list (appSuspend s)) =
    stops s /\
  (forall label max, SetInput label max ∈ (key_acts k front_page ++ more)%list ->
                     SetInput label max ∈ more).
Proof.
  intros Hm. split.
  - unfold stops. cbn [acts]. rewrite !List.filter_app, !length_app.
    assert (H1 : length (List.filter
      (fun a => match a with Core UI.AppStop => true | _ => false end)
      (key_acts k front_page)) = O).
    { unfold key_acts. destruct k; try done. by destruct (bool_decide _). }
    assert (H2 : length (List.filter
      (fun a => match a with Core UI.AppStop => true | _ => false end) more) = O).
    { induction Hm as [|a more Ha _ IH]; [done|]. cbn [List.filter].
      destruct a as [[]| | | | | | | | | | | |]; done. }
    lia.
  - intros label max. rewrite elem_of_app. intros [Hin|Hin]; [|done]. exfalso.
    unfold key_acts in Hin. destruct k; try (by apply elem_of_nil in Hin).
    + destruct (bool_decide _); [|by apply elem_of_nil in Hin].
      apply elem_of_cons in Hin as [Hin|Hin]; [discriminate|]. by apply elem_of_nil in Hin.
    + repeat (apply elem_of_cons in Hin as [Hin|Hin]; [discriminate|]).
      by apply elem_of_nil in Hin.
Qed.

(** X26: what the input capture swallows.  It keeps Ctrl-C back, without
    doing anything else, and it keeps back a 'q' typed while the focus is
    not on an input field, for which it opens the quit prompt.  Every other
    event is handed on unchanged, a 'q' typed into an input field among
    them.  The capture itself never stops the application and leaves the
    shutdown signal alone; it sets the suspend flag on Ctrl-Z only. *)
Theorem inputCapture_swallows event front_page focus_is_input s :
  let ctrl_c := bool_decide (key event = KeyCtrlC) in
  let quits := bool_decide (rune event = rune_q) && negb focus_is_input in
  let handed := (inputCapture event front_page focus_is_input s).1 in
  let s' := (inputCapture event front_page focus_is_input s).2 in
  handed = (if ctrl_c || quits then None else Some event) /\
  (if ctrl_c then s' = s
   else (SetInput "Quit? (y/n)" 1 ∈ drop (length (acts s)) (acts s') <-> quits = true)) /\
  signal s' = signal s /\
  stops s' = stops s /\
  appSuspend s' = appSuspend s || bool_decide (key event = KeyCtrlZ).
Proof.
  cbv zeta. rewrite inputCapture_acts.
  destruct (bool_decide (key event = KeyCtrlC)) eqn:Hc; cbn [orb fst snd].
  - apply bool_decide_eq_true in Hc. rewrite Hc.
    rewrite bool_decide_eq_false_2 by done. by rewrite orb_false_r.
  - set (quits := bool_decide (rune event = rune_q) && negb focus_is_input).
    cbn [acts signal appSuspend]. rewrite drop_app_length.
    assert (Hm : Forall (fun a => a <> Core UI.AppStop)
                   (if quits then [SetInput "Quit? (y/n)" 1] else [])).
    { destruct quits; by repeat constructor. }
    destruct (key_acts_keep_running (key event) front_page _ s Hm) as [Hs Hi].
    split; [done|]. split; [|split; [done|split; [exact Hs|done]]].
    split.
    + intros Hin. apply Hi in Hin. destruct quits; [done|]. by apply elem_of_nil in Hin.
    + intros ->. rewrite elem_of_app. right. constructor.
Qed.

(** X27: a quit from the keyboard, from end to end.  A 'q' typed
    outside an input field is kept back and opens the prompt; Enter on
    the text "y" then stops the player without closing other instances
    and stops the application, once.  When the player goes away after
    that, the watcher stays silent; and the same confirmation given once
    more panics on the closed channel. *)
Theorem q_y_enter_quits_once event front_page config_path s :
  ch_closed (signal s) = false -> ch_buf (signal s) = [] ->
  key event <> KeyCtrlC -> rune event = rune_q ->
  let asked := inputCapture event front_page false s in
  let answered := ifunc enter "y" asked.2 in
  asked.1 = None /\
  answered.1 = Ret enter /\
  drop (length (acts asked.2)) (acts answered.2) =
    [Core (UI.StopPlayer false); Core UI.AppStop] /\
  stops answered.2 = S (stops s) /\
  detectMPVClose true config_path answered.2 = (Ret tt, answered.2) /\
  (ifunc enter "y" answered.2).1 = Panic "close of closed channel".
Proof.
  intros Ho Hb Hk Hq. cbv zeta. rewrite inputCapture_acts.
  rewrite bool_decide_eq_false_2 by done.
  rewrite (bool_decide_eq_true_2 (rune event = rune_q)) by done.
  cbn [andb negb fst snd].
  unfold ifunc, qfunc. cbn [key enter]. rewrite bool_decide_eq_true_2 by done.
  rewrite core_StopUI. cbn [signal acts appSuspend]. rewrite Ho. cbn [fst snd acts].
  split; [done|]. split; [done|]. split; [apply drop_app_length|].
  split.
  { destruct (key_acts_keep_running (key event) front_page [SetInput "Quit? (y/n)" 1] s)
      as [Hs _]; [by repeat constructor|].
    unfold stops in *. cbn [acts] in *. rewrite List.filter_app, length_app, Hs. cbn. lia. }
  split.
  - unfold detectMPVClose, core, UI.detectMPVClose. cbn. rewrite Hb. cbn.
    by rewrite app_nil_r.
  - by rewrite core_StopUI.
Qed.

(** X28: one suspension for each draw at most.  However often Ctrl-Z
    was pressed since the last draw, [suspendUI] suspends the application
    once and clears the flag; with the flag clear it does nothing, so a
    second draw in a row never suspends. *)
Theorem ctrl_z_suspends_once presses front_page focus_is_input s :
  let ctrl_z := mkEventKey KeyCtrlZ 26 in
  let pressed := foldl (fun s _ => (inputCapture ctrl_z front_page focus_is_input s).2) s
                   (replicate (S presses) tt) in
  acts (suspendUI pressed) = (acts s ++ [SuspendApp])%list /\
  appSuspend (suspendUI pressed) = false /\
  suspendUI (suspendUI pressed) = suspendUI pressed /\
  (appSuspend s = false -> suspendUI s = s).
Proof.
  intros ctrl_z pressed.
  assert (Hpress : forall u,
    (inputCapture ctrl_z front_page focus_is_input u).2 = mkState (signal u) (acts u) true).
  { intros u. unfold inputCapture, ctrl_z. cbn [key rune].
    by rewrite bool_decide_eq_false_2. }
  assert (Hp : forall n u,
    foldl (fun s _ => (inputCapture ctrl_z front_page focus_is_input s).2) u
      (replicate (S n) tt) = mkState (signal u) (acts u) true).
  { induction n as [|n IH]; intros u; [apply Hpress|].
    change (replicate (S (S n)) tt) with (tt :: replicate (S n) tt). cbn [foldl].
    by rewrite IH, Hpress. }
  subst pressed. rewrite Hp. unfold suspendUI. cbn.
  split; [done|]. split; [done|]. split; [done|]. by intros ->.
Qed.

Lemma split_on_cons sep s : exists line rest, split_on sep s = line :: rest.
Proof.
  induction s as [|a s (line & rest & IH)]; cbn [split_on]; [by eexists _, _|].
  destruct (Ascii.eqb a sep); [by eexists _, _|]. rewrite IH. by eexists _, _.
Qed.

Lemma join_split_on sep s : join sep (split_on sep s) = s.
Proof.
  induction s as [|a s IH]; [done|]. cbn [split_on].
  destruct (split_on_cons sep s) as (line & rest & E). rewrite E in *.
  destruct (Ascii.eqb a sep) eqn:Ha.
  - apply Ascii.eqb_eq in Ha as ->.
    change (join sep ("" :: line :: rest)) with (String sep (join sep (line :: rest))).
    by rewrite IH.
  - destruct rest as [|next rest].
    + cbn [join] in *. by rewrite IH.
    + change (join sep (String a line :: next :: rest))
        with (String a (line ++ String sep (join sep (next :: rest)))).
      change (join sep (line :: next :: rest))
        with (line ++ String sep (join sep (next :: rest))) in IH.
      by rewrite IH.
Qed.

Lemma split_on_length sep s : length (split_on sep s) = S (occurrences sep s).
Proof.
  induction s as [|a s IH]; [done|]. cbn [split_on occurrences].
  destruct (split_on_cons sep s) as (line & rest & E). rewrite E in *.
  destruct (Ascii.eqb a sep); cbn [length] in *; lia.
Qed.

Lemma split_on_free sep s : Forall (fun line => occurrences sep line = O) (split_on sep s).
Proof.
  induction s as [|a s IH]; [by repeat constructor|]. cbn [split_on].
  destruct (split_on_cons sep s) as (line & rest & E). rewrite E in *.
  destruct (Ascii.eqb a sep) eqn:Ha; [by constructor|].
  inversion IH; subst. constructor; [|done]. cbn [occurrences]. by rewrite Ha.
Qed.

Lemma widest lines w0 :
  let w := foldl (fun bannerWidth line =>
                    if (bannerWidth <? String.length line)%nat then String.length line
                    else bannerWidth) w0 lines in
  (w0 <= w)%nat /\
  Forall (fun line => (String.length line <= w)%nat) lines /\
  (w = w0 \/ exists line, line ∈ lines /\ String.length line = w).
Proof.
  revert w0. induction lines as [|line lines IH]; intros w0; cbn [foldl].
  - split; [lia|]. split; [constructor|by left].
  - destruct (IH (if (w0 <? String.length line)%nat then String.length line else w0))
      as (H1 & H2 & H3).
    destruct (Nat.ltb_spec w0 (String.length line)) as [Hlt|Hge].
    + split; [lia|]. split; [constructor; [lia|done]|]. right.
      destruct H3 as [->|(l & Hl & El)]; [exists line|exists l]; split; auto;
        [apply list_elem_of_here|by apply list_elem_of_further].
    + split; [lia|]. split; [constructor; [lia|done]|].
      destruct H3 as [->|(l & Hl & El)]; [by left|]. right. exists l.
      split; [by apply list_elem_of_further|done].
Qed.

(** X29: the box [showBanner] makes for a text is as wide as the longest
    line of the text and as high as the text has lines, the lines being
    what lies between the line feeds of the text: one more than there are
    line feeds, the empty lines at either end included. *)
Theorem showBanner_fits text :
  let lines := split_on newline text in
  join newline lines = text /\
  Forall (fun line => occurrences newline line = O) lines /\
  Forall (fun line => (String.length line <= (showBanner text).1)%nat) lines /\
  (exists line, line ∈ lines /\ String.length line = (showBanner text).1) /\
  (showBanner text).2 = S (occurrences newline text).
Proof.
  intros lines. split; [apply join_split_on|]. split; [apply split_on_free|].
  unfold showBanner. fold lines. cbn [fst snd].
  destruct (widest lines O) as (_ & H2 & H3). split; [exact H2|].
  split; [|apply split_on_length].
  destruct H3 as [E|H3]; [|exact H3].
  destruct (split_on_cons newline text) as (line & rest & El). fold lines in El.
  exists line. rewrite El. split; [apply list_elem_of_here|].
  rewrite El in H2, E. inversion H2 as [|? ? Hle _]; subst. rewrite E in *. lia.
Qed.

(** The banner of the program is 44 columns wide and 6 lines high. *)
Example banner_size : showBanner banner = (44%nat, 6%nat).
Proof. vm_compute. reflexivity. Qed.

End FrontProperties.

(** * The properties on the simulated player *)

(** ** Closed connection *)

(** A load on the closed connection of the simulated player. *)
Lemma closed_connection_fails_fast_witness :
  conn_IsClosed Sim.player (conn down) = true /\
  has_file song_a = true /\
  (run_op song_a down).1 = Ret (RError (Some "Unable to load Song A")) /\
  untouched down (run_op song_a down).2.
Proof.
  split; [reflexivity|]. split; [reflexivity|].
  apply (closed_connection_fails_fast song_a down); reflexivity.
Defined.

(** On a closed connection [LoadFile], a mutating operation, returns its
    own load error and not the error "Connection closed". *)
Lemma closed_load_is_not_connection_closed :
  conn_IsClosed Sim.player (conn down) = true /\
  (LoadFile "Song A" 180 ["a.m4a"] down).1 = Ret (Some "Unable to load Song A") /\
  (LoadFile "Song A" 180 ["a.m4a"] down).1 <> Ret (Some ConnectionClosedError).
Proof. split; [reflexivity|]. split; [reflexivity|]. vm_compute. discriminate. Qed.

(** ** CycleLoop, CyclePaused *)

(** Three calls of [CycleLoop] on the player that has just started. *)
Lemma CycleLoop_rotates_witness :
  loop up = "" /\
  loop (CycleLoop up).2 = "loop-file" /\
  loop (CycleLoop (CycleLoop up).2).2 = "loop-playlist" /\
  loop (CycleLoop (CycleLoop (CycleLoop up).2).2).2 = "".
Proof.
  split; [reflexivity|].
  exact (proj1 (proj2 (CycleLoop_rotates up eq_refl))).
Defined.

(** The two loop properties of the simulated player after one, two and
    three calls. *)
Example CycleLoop_on_player :
  let w1 := (CycleLoop up).2 in
  let w2 := (CycleLoop w1).2 in
  let w3 := (CycleLoop w2).2 in
  let loops (w : World Sim.player) :=
    (Sim.props (conn w) !! "loop-file", Sim.props (conn w) !! "loop-playlist") in
  loops w1 = (Some (VString "yes"), Some (VString "no")) /\
  loops w2 = (Some (VString "no"), Some (VString "yes")) /\
  loops w3 = (Some (VString "no"), Some (VString "no")).
Proof. vm_compute. done. Qed.

(** The player paused at the end of its file: [CyclePaused] rewinds. *)
Lemma CyclePaused_rewinds_at_paused_eof_witness :
  exists w1 w2,
    IsEOF paused_at_end = (Ret true, w1) /\
    IsPaused w1 = (Ret true, w2) /\
    (CyclePaused paused_at_end).1 = Ret tt /\
    issued (since paused_at_end (CyclePaused paused_at_end).2) =
      [RGet "eof-reached"; RGet "pause"; seek_to_start; toggle_pause].
Proof.
  exists (IsEOF paused_at_end).2, (IsPaused (IsEOF paused_at_end).2).2.
  split; [reflexivity|]. split; [reflexivity|].
  apply (proj1 (CyclePaused_rewinds_at_paused_eof paused_at_end)
           (IsEOF paused_at_end).2 (IsPaused (IsEOF paused_at_end).2).2); reflexivity.
Defined.

(** ** Loads and mutators *)


(** A player whose end-of-file flag is the string "yes": the get
    succeeds and the type assertion of [CyclePaused] panics. *)
Example ill_typed_flag_panics :
  ill_typed_reply (@OCyclePaused Sim.player) odd_flag = true /\
  (run_op (@OCyclePaused Sim.player) odd_flag).1 = Panic "interface conversion: not bool".
Proof. vm_compute. done. Qed.

(** The rejecting player fails the load; the caller gets the load error.
    The same player fails the toggle of [CyclePaused]; the caller gets
    nothing. *)
Example rejected_load_and_toggle :
  (LoadFile "Song A" 180 ["a.m4a"] sulking).1 = Ret (Some "Unable to load Song A") /\
  (LoadFile "Song A" 180 ["a.m4a"] up).1 = Ret None /\
  (CyclePaused sulking).1 = Ret tt.
Proof. vm_compute. done. Qed.

(** A replacing load that the player rejects, with one title tracked. *)
Lemma LoadPlaylist_replace_failure_clears_witness :
  (LoadPlaylist "list.m3u" true tracking).1 = Ret (Some "Unable to load list.m3u") /\
  monitorMap tracking = {[ 7 := "Song A" ]} /\
  monitorMap (LoadPlaylist "list.m3u" true tracking).2 = ∅ /\
  exists fwd,
    since tracking (LoadPlaylist "list.m3u" true tracking).2 =
      [EClearMonitor; EPrim (RCall (loadlist_args "list.m3u" true)) fwd].
Proof.
  split; [reflexivity|]. split; [reflexivity|].
  apply (LoadPlaylist_replace_failure_clears "list.m3u" tracking "Unable to load list.m3u").
  reflexivity.
Defined.

(** ** The monitor *)

(** A load followed by its start event: the title is dropped at the
    load, the identifier stays in the queue, and the next load takes it. *)
Lemma load_before_start_is_not_tracked :
  monitorMap (run [AOp song_a; started_7] up).2 !! 7 = None /\
  ch_buf (mpvInfoChan (run [AOp song_a; started_7] up).2) = [7] /\
  (run [AOp song_a; started_7; AOp song_b; started_8] up).1 = Ret tt /\
  monitorMap (run [AOp song_a; started_7; AOp song_b; started_8] up).2 = {[ 7 := "Song B" ]}.
Proof. vm_compute. done. Qed.

(** The simulated player meets the assumptions made of the transport. *)
Lemma sim_accepting : accepting Sim.player.
Proof. intros args c Hc. by exists VNil, c. Qed.

Lemma sim_up_idle : idle up.
Proof. split; [done|]. split; [by exists 99%nat|]. split; [by exists 99%nat|]. by exists []. Qed.

(** Two songs start and the first fails while a consumer is waiting. *)
Lemma monitor_tracks_started_loads_witness :
  accepting Sim.player /\ idle up /\ Forall valid_round song_a_fails /\
  exists w',
    run (concat (map round_actions song_a_fails)) up = (Ret tt, w') /\ idle w' /\
    (monitorMap w', err_delivered (MPVErrors w')) = ({[ 8 := "Song B" ]}, ["Song A"]) /\
    (forall id, monitorMap w' !! id = tracked id song_a_fails None).
Proof.
  split; [exact sim_accepting|]. split; [exact sim_up_idle|].
  split; [by repeat constructor|].
  apply (monitor_tracks_started_loads song_a_fails up sim_accepting sim_up_idle).
  by repeat constructor.
Defined.

Lemma sim_closing_closes : closing_closes Sim.player.
Proof. intros c. reflexivity. Qed.

Lemma sim_pending_reachable : @reachable Sim.player (Sim.live []) pending_7.
Proof. apply (@reachable_step Sim.player _ started_7 up); [constructor|reflexivity]. Qed.





(** ** The launcher *)

(** A socket that opens at the third attempt, a budget of 3. *)
Lemma MPVConnect_retries_witness :
  (true = true -> exec_Start (Sim.env 2 false) (mpv_argv (Sim.flags 3) "/tmp/socket") = None) /\
  (MPVConnect (Sim.env 2 false) (Sim.flags 3) "/tmp/socket" true).1.1 =
     Some (Sim.mkConn false 0 ∅) /\
  open_attempts (MPVConnect (Sim.env 2 false) (Sim.flags 3) "/tmp/socket" true).2 = 3%nat /\
  seconds_slept (MPVConnect (Sim.env 2 false) (Sim.flags 3) "/tmp/socket" true).2 = 2.
Proof.
  split; [reflexivity|].
  destruct (proj1 (@MPVConnect_retries (Sim.env 2 false) (Sim.flags 3) "/tmp/socket" true
                     (fun _ => eq_refl))
              2%nat (Sim.mkConn true 0 ∅) (Sim.mkConn false 0 ∅) eq_refl eq_refl)
    as (H1 & H2 & H3).
  - cbn. lia.
  - rewrite H1. split; [reflexivity|]. split; [exact H2|exact H3].
Defined.

(** A socket that never opens, a budget of 3: three attempts, each
    followed by a second of sleep, so three seconds and not two, the last
    of them after the last attempt. *)
Lemma exhausted_budget_sleeps_three_times :
  MPVConnect (Sim.env 5 false) (Sim.flags 3) "/tmp/socket" false =
    (None, Some ConnectTimeoutError,
     [LOpen; LSleep 1; LOpen; LSleep 1; LOpen; LSleep 1]) /\
  seconds_slept (MPVConnect (Sim.env 5 false) (Sim.flags 3) "/tmp/socket" false).2 = 3 /\
  seconds_slept (MPVConnect (Sim.env 5 false) (Sim.flags 3) "/tmp/socket" false).2 <> 2.
Proof. vm_compute. repeat split; discriminate. Qed.

(** ** The watcher *)

Module UIExamples.
Import UI UIProperties.

(** The player dies while the application is running. *)
Lemma watcher_tears_down_once_witness :
  signal_open start /\
  exists s',
    detectMPVClose true ("/tmp/invidtui/socket", None) start = (Ret tt, s') /\
    signal_closed s' /\
    effects s' =
      [StopPlayer true; AppStop; Remove "/tmp/invidtui/socket"; Printf exit_message] /\
    teardowns s' = 1%nat /\
    removals s' = 1%nat /\
    detectMPVClose true ("/tmp/invidtui/socket", None) s' = (Ret tt, s').
Proof.
  split; [reflexivity|].
  apply (proj2 (watcher_tears_down_once ("/tmp/invidtui/socket", None) start)).
  reflexivity.
Defined.

(** When the socket path does not resolve, the watcher tears down and
    prints but attempts no removal. *)
Lemma unresolved_path_skips_removal :
  signal_open start /\
  effects (detectMPVClose true ("", Some "no config directory") start).2 =
    [StopPlayer true; AppStop; Printf exit_message] /\
  removals (detectMPVClose true ("", Some "no config directory") start).2 = 0%nat.
Proof. vm_compute. done. Qed.

End UIExamples.

(** * Further properties on the simulated player *)

(** ** Loads and queries *)

(** The rejecting player fails a load while an identifier is pending:
    the identifier stays. *)
Lemma failed_load_changes_nothing_witness :
  (LoadFile "Song A" 180 ["a.m4a"] sulking_pending).1 = Ret (Some "Unable to load Song A") /\
  same_monitor sulking_pending (LoadFile "Song A" 180 ["a.m4a"] sulking_pending).2.
Proof.
  split; [reflexivity|].
  apply (proj1 (failed_load_changes_nothing sulking_pending "Unable to load Song A")).
  reflexivity.
Defined.

(** The player whose playlist loops answers both queries. *)
Lemma LoopType_needs_both_answers_witness :
  Call ask_loop_file looping = (Ret (VString "no", None), (Call ask_loop_file looping).2) /\
  Call ask_loop_playlist (Call ask_loop_file looping).2 =
    (Ret (VString "inf", None), (Call ask_loop_playlist (Call ask_loop_file looping).2).2) /\
  ~ means_loop (T := Echo.player) (VString "no") /\
  means_loop (T := Echo.player) (VString "inf") /\
  LoopType true looping =
    (Ret "R-P", (Call ask_loop_playlist (Call ask_loop_file looping).2).2).
Proof.
  assert (Hno : ~ means_loop (T := Echo.player) (VString "no")) by (by intros [|]).
  assert (Hinf : means_loop (T := Echo.player) (VString "inf")) by (by right).
  split; [reflexivity|]. split; [reflexivity|]. split; [exact Hno|]. split; [exact Hinf|].
  exact (proj1 (proj2
           (proj2 (proj2 (proj2 (proj2 (proj2 (LoopType_needs_both_answers true looping)))))
              (VString "no") _ (VString "inf") _ eq_refl eq_refl)) Hno Hinf).
Defined.

(** The same player with the query about the playlist failing: the loop
    on the file goes unreported. *)
Example LoopType_hides_file_loop :
  (LoopType true (init_world Echo.player (Sim.live [("loop-file", VString "yes")]))).1 = Ret "".
Proof. vm_compute. reflexivity. Qed.

(** The operation [Play] writes none of the package variables. *)
Lemma only_four_operations_write_witness :
  writes_monitor (@OPlay Sim.player) = false /\
  same_monitor two_pending (run_op OPlay two_pending).2.
Proof.
  split; [reflexivity|]. apply (only_four_operations_write OPlay two_pending). reflexivity.
Defined.

(** The length 180 of the entry is read back. *)
Lemma Duration_reads_back_length_witness :
  Get "duration" no_duration =
    (Ret (VNil, Some "property unavailable"), (Get "duration" no_duration).2) /\
  strconv_Atoi Sim.player (strconv_Itoa Sim.player 180) = (180, None) /\
  Duration no_duration = (Ret 180, (Duration no_duration).2).
Proof.
  split; [reflexivity|]. split; [reflexivity|].
  apply (proj1 (Duration_reads_back_length 180 no_duration VNil "property unavailable"
                  (Get "duration" no_duration).2 eq_refl)); reflexivity.
Defined.

(** ** The monitor *)

(** Three titles for two pending identifiers. *)
Lemma registrations_are_fifo_witness :
  ch_closed (mpvInfoChan two_pending) = false /\
  (register ["Song A"; "Song B"; "Song C"] two_pending).1 = Ret tt /\
  monitorMap (register ["Song A"; "Song B"; "Song C"] two_pending).2 =
    with_entries ∅ [(7, "Song A"); (8, "Song B")] /\
  ch_buf (mpvInfoChan (register ["Song A"; "Song B"; "Song C"] two_pending).2) = [].
Proof.
  split; [reflexivity|].
  exact (registrations_are_fifo ["Song A"; "Song B"; "Song C"] two_pending eq_refl).
Defined.

(** Two failed entries and one waiting consumer: both entries go, one
    title is delivered, and the task is parked. *)
Lemma monitor_drains_error_queue_witness :
  err_closed (MPVErrors two_failed) = false /\
  (run (replicate 2 AMonitor) two_failed).1 = Ret tt /\
  monitorMap (run (replicate 2 AMonitor) two_failed).2 =
    without (<[ 7 := "Song A" ]> {[ 8 := "Song B" ]}) [7; 8] /\
  ch_buf (mpvErrorChan (run (replicate 2 AMonitor) two_failed).2) = [] /\
  length (err_delivered (MPVErrors (run (replicate 2 AMonitor) two_failed).2)) = 1%nat /\
  (monitorStart_iter (run (replicate 2 AMonitor) two_failed).2).1 = Blocked.
Proof.
  split; [reflexivity|].
  exact (monitor_drains_error_queue two_failed eq_refl).
Defined.

Example monitor_drains_on_player :
  monitorMap (run (replicate 2 AMonitor) two_failed).2 = ∅ /\
  err_delivered (MPVErrors (run (replicate 2 AMonitor) two_failed).2) = ["Song A"].
Proof. vm_compute. done. Qed.

(** A pause event passes. *)
Lemma listener_ignores_other_events_witness :
  (Name paused ∉ ["start-file"; "end-file"; "shutdown"]) /\
  eventListener_iter (Some paused) up = (Ret true, up).
Proof.
  assert (H : Name paused ∉ ["start-file"; "end-file"; "shutdown"]).
  { intros Hin. repeat (apply elem_of_cons in Hin as [Hin|Hin]; [discriminate Hin|]).
    by apply elem_of_nil in Hin. }
  split; [exact H|]. apply (listener_ignores_other_events paused up). by left.
Defined.

(** A start event whose entry identifier is the string "7". *)
Lemma listener_panics_on_ill_typed_event_witness :
  ExtraData odd_start <> ∅ /\
  Name odd_start = "start-file" /\
  eventListener_iter (Some odd_start) up = (Panic "interface conversion: not float64", up).
Proof.
  assert (H : ExtraData odd_start <> ∅) by apply insert_non_empty.
  split; [exact H|]. split; [reflexivity|].
  apply (proj1 (listener_panics_on_ill_typed_event odd_start up H)); [reflexivity|].
  intros f. vm_compute. discriminate.
Defined.

(** The player shuts down while the failure of entry 7 is pending: the
    next turn of the monitor task panics. *)
Lemma after_shutdown_witness :
  shutdown two_failed = (Ret tt, (shutdown two_failed).2) /\
  (shutdown (shutdown two_failed).2).1 = Panic "close of closed channel" /\
  (monitorStart_iter (shutdown two_failed).2).1 = Panic "send on closed channel" /\
  monitorMap (monitorStart_iter (shutdown two_failed).2).2 =
    delete 7 (<[ 7 := "Song A" ]> {[ 8 := "Song B" ]}).
Proof.
  split; [reflexivity|].
  destruct (after_shutdown two_failed (shutdown two_failed).2 eq_refl) as (_ & H2 & H3 & _).
  split; [exact H2|]. exact H3.
Defined.

(** The state after one start event. *)
Lemma reachable_settled_witness :
  @reachable Sim.player (Sim.live []) pending_7 /\
  settled pending_7 /\
  exists a b,
    issued (since pending_7 (CycleLoop pending_7).2) =
      [RSet "loop-file" a; RSet "loop-playlist" b].
Proof.
  split; [exact sim_pending_reachable|].
  exact (@reachable_settled Sim.player (Sim.live []) pending_7 sim_pending_reachable).
Defined.

(** A load, an event, a mutator and the end of the event stream on the
    closed connection. *)
Lemma closed_connection_stays_silent_witness :
  closing_closes Sim.player /\
  conn_IsClosed Sim.player (conn down) = true /\
  conn_IsClosed Sim.player (conn (run afterwards down).2) = true /\
  Forall (fun e => forwarded e = false) (since down (run afterwards down).2).
Proof.
  split; [exact sim_closing_closes|]. split; [reflexivity|].
  exact (closed_connection_stays_silent afterwards down sim_closing_closes eq_refl).
Defined.

(** Two start events, then the two loads. *)
Lemma batch_of_loads_pairs_in_order_witness :
  accepting Sim.player /\ idle up /\
  exists w',
    run (batch (T := Sim.player) [7; 8] two_songs) up = (Ret tt, w') /\ idle w' /\
    monitorMap w' =
      after_loads ∅ [(7, FileLoad "Song A" 180 "a.m4a" []); (8, FileLoad "Song B" 200 "b.m4a" [])].
Proof.
  split; [exact sim_accepting|]. split; [exact sim_up_idle|].
  apply (@batch_of_loads_pairs_in_order Sim.player [7; 8] two_songs up sim_accepting
           sim_up_idle);
    [reflexivity|cbn; lia].
Defined.

(** The same with a replacing playlist at the end of the batch: only its
    entry is left. *)
Example batch_with_replacing_list :
  monitorMap (run (batch (T := Sim.player) [7; 8] two_songs) up).2 =
    <[ 8 := "Song B" ]> {[ 7 := "Song A" ]} /\
  monitorMap (run (batch (T := Sim.player) [7; 8; 9] songs_then_list) up).2 =
    {[ 9 := "playlist entry" ]} /\
  after_loads ∅ (zip [7; 8; 9] songs_then_list) = {[ 9 := "playlist entry" ]}.
Proof. vm_compute. done. Qed.

(** ** The launcher and start-up *)

(** A budget of zero on a socket that is ready. *)
Lemma MPVConnect_without_budget_witness :
  connretries (Sim.flags 0) <= 0 /\
  MPVConnect (Sim.env 0 false) (Sim.flags 0) "/tmp/socket" true =
    (None, Some ConnectTimeoutError, [LStart (mpv_argv (Sim.flags 0) "/tmp/socket")]).
Proof.
  assert (H : connretries (Sim.flags 0) <= 0) by (cbn; lia).
  split; [exact H|].
  exact (@MPVConnect_without_budget (Sim.env 0 false) (Sim.flags 0) "/tmp/socket" true H
           (fun _ => eq_refl)).
Defined.

(** Another instance is running on the socket: it is told to quit. *)
Example CloseInstances_on_player :
  CloseInstances (T := Sim.player) (Sim.flags 3) "/tmp/socket" up =
    (Ret tt, log (EPrim (RCall [VString "quit"]) true) up, [LOpen; LSleep 2]).
Proof. vm_compute. reflexivity. Qed.

(** Start-up on a player that rejects every command: it succeeds. *)
Example MPVStart_on_stubborn_player :
  (MPVStart Sim.stubborn (Sim.flags 3) ("/tmp/socket", None)).1.1 = Ret None /\
  MPVStart Sim.player (Sim.flags 3) ("", Some "no config directory") =
    (Ret (Some "no config directory"), None, []).
Proof. vm_compute. done. Qed.

(** ** The feed *)

(** The first page and two more, on a server that fails every request. *)
Lemma Feed_pages_witness :
  Z.of_nat 2 + 1 < 2 ^ 63 /\
  feedPage (feeds Sim.player [false; true; true] (Server.fresh_feed true)) = 1 + Z.of_nat 2 /\
  queries (feeds Sim.player [false; true; true] (Server.fresh_feed true)) =
    ([] ++ map (fun i => feed_query Sim.player (Z.of_nat i)) (seq 1 3))%list.
Proof.
  assert (H : Z.of_nat 2 + 1 < 2 ^ 63) by reflexivity.
  split; [exact H|].
  exact (@Feed_pages Sim.player (Server.http true) 2 (Server.fresh_feed true) H).
Defined.

Example Feed_queries_on_server :
  queries (feeds Sim.player [false; true; true] (Server.fresh_feed true)) =
    ["auth/feed?hl=en&page=1"; "auth/feed?hl=en&page=2"; "auth/feed?hl=en&page=3"] /\
  (Feed Sim.player true (Server.fresh_feed false)).1 = (mkFeedResult [Server.video], None).
Proof. vm_compute. done. Qed.

(** A request for more that fails, and the one after it. *)
Lemma failed_Feed_still_turns_the_page_witness :
  (Feed Sim.player true (Server.fresh_feed true)).1.2 = Some "request failed" /\
  (Feed Sim.player true (Server.fresh_feed true)).1.1 = mkFeedResult [] /\
  feedPage (Feed Sim.player true (Server.fresh_feed true)).2 = wrap_int (0 + 1) /\
  queries (Feed Sim.player true (Feed Sim.player true (Server.fresh_feed true)).2).2 =
    ([] ++ [feed_query Sim.player (wrap_int (0 + 1));
            feed_query Sim.player (wrap_int (wrap_int (0 + 1) + 1))])%list.
Proof.
  split; [reflexivity|].
  exact (@failed_Feed_still_turns_the_page Sim.player (Server.http true) true
           (Server.fresh_feed true) "request failed" eq_refl).
Defined.

(** ** Teardown and keyboard *)

Module FrontExamples.
Import Front.

(** The user quits, then the player goes away. *)
Lemma teardown_once_or_panic_witness :
  UI.signal_open UI.start /\
  exists s',
    UI.StopUI false UI.start = (Ret tt, s') /\
    UI.effects s' = ([] ++ [UI.StopPlayer false; UI.AppStop])%list /\
    UI.signal_closed s' /\
    UI.detectMPVClose true ("/tmp/invidtui/socket", None) s' = (Ret tt, s') /\
    UI.StopUI true s' = (Panic "close of closed channel", s') /\
    UI.StopUI true (UI.detectMPVClose true ("/tmp/invidtui/socket", None) UI.start).2 =
      (Panic "close of closed channel",
       (UI.detectMPVClose true ("/tmp/invidtui/socket", None) UI.start).2).
Proof.
  split; [reflexivity|].
  exact (TeardownProperties.teardown_once_or_panic false true
           ("/tmp/invidtui/socket", None) UI.start eq_refl).
Defined.

(** Enter on the text "y", while the application runs and after it has
    been stopped. *)
Lemma quit_needs_y_and_enter_witness :
  (ifunc enter "y" start).1 = Ret enter /\
  stops (ifunc enter "y" start).2 = 1%nat /\
  (ifunc enter "y" (ifunc enter "y" start).2).1 = Panic "close of closed channel".
Proof.
  destruct (FrontProperties.quit_needs_y_and_enter enter "y" start) as (H1 & _ & H3).
  split; [exact H1|]. split; [apply H3; repeat split; reflexivity|].
  exact (proj1 (FrontProperties.quit_needs_y_and_enter enter "y" (ifunc enter "y" start).2)).
Defined.

(** Other answers do not quit. *)
Example capital_y_does_not_quit :
  stops (ifunc enter "Y" start).2 = 0%nat /\
  acts (ifunc enter "Y" start).2 = [RestoreInput; SwitchToPage; SetFocus] /\
  (inputCapture typed_q "search" true start) = (Some typed_q, start).
Proof. vm_compute. done. Qed.

(** A 'q' typed on the search page, and the answer "y". *)
Lemma q_y_enter_quits_once_witness :
  key typed_q <> KeyCtrlC /\ rune typed_q = rune_q /\
  (inputCapture typed_q "search" false start).1 = None /\
  acts (ifunc enter "y" (inputCapture typed_q "search" false start).2).2 =
    [SetInput "Quit? (y/n)" 1; Core (UI.StopPlayer false); Core UI.AppStop] /\
  stops (ifunc enter "y" (inputCapture typed_q "search" false start).2).2 = 1%nat.
Proof.
  assert (Hk : key typed_q <> KeyCtrlC) by discriminate.
  split; [exact Hk|]. split; [reflexivity|].
  destruct (FrontProperties.q_y_enter_quits_once typed_q "search"
              ("/tmp/invidtui/socket", None) start eq_refl eq_refl Hk eq_refl)
    as (H1 & _ & _ & H4 & _).
  split; [exact H1|]. split; [reflexivity|exact H4].
Defined.

End FrontExamples.
